(** * Shallow embedding of the 4D syntax-checker pipeline

    Sources: src/src/tokenizer.ts, src/src/malformation-checker.ts,
    src/src/parameter-checker.ts, src/src/parser.ts (the token-based
    [Parser] class) and src/src/checker.ts ([SyntaxChecker.isTypeValid]).

    Characters are the code units of a JavaScript string, modelled by
    [ascii] read as an 8-bit (Latin-1) code unit: codes above 127 stand
    for the non-ASCII code units the tokenizer accepts in identifiers. *)

From Stdlib Require Import String Ascii List ZArith Bool Lia Permutation.
Import ListNotations.
Open Scope string_scope.
Open Scope bool_scope.
Open Scope nat_scope.

(* ------------------------------------------------------------------ *)
(** ** Character and string helpers (JavaScript string primitives) *)

Definition code (c : ascii) : nat := nat_of_ascii c.

Definition char_is (c : ascii) (n : nat) : bool := Nat.eqb (code c) n.

(** [this.input[i]] : [undefined] out of range. *)
Definition char_at (s : string) (i : nat) : option ascii := String.get i s.

Definition char_at_is (s : string) (i : nat) (n : nat) : bool :=
  match char_at s i with Some c => char_is c n | None => false end.

(** JavaScript [String.prototype.substring(start, end)] for [start <= end]. *)
Definition js_substring (s : string) (start stop : nat) : string :=
  String.substring start (stop - start) s.

(** White space stripped by [String.prototype.trim] (8-bit range). *)
Definition is_js_space (c : ascii) : bool :=
  let n := code c in
  (9 <=? n) && (n <=? 13) || Nat.eqb n 32 || Nat.eqb n 160.

Fixpoint trim_start (s : string) : string :=
  match s with
  | EmptyString => EmptyString
  | String c r => if is_js_space c then trim_start r else s
  end.

Definition trim_end (s : string) : string :=
  string_of_list_ascii
    (rev (list_ascii_of_string (trim_start
      (string_of_list_ascii (rev (list_ascii_of_string s)))))).

Definition trim (s : string) : string := trim_end (trim_start s).

(** [String.prototype.toLowerCase] on 8-bit code units. *)
Definition lower_char (c : ascii) : ascii :=
  let n := code c in
  if ((65 <=? n) && (n <=? 90)) || ((192 <=? n) && (n <=? 222) && negb (Nat.eqb n 215))
  then ascii_of_nat (n + 32) else c.

Fixpoint toLowerCase (s : string) : string :=
  match s with
  | EmptyString => EmptyString
  | String c r => String (lower_char c) (toLowerCase r)
  end.

(** [String.prototype.split(ch)] for a one-character separator. *)
Fixpoint split_char (sep : ascii) (s : string) : list string :=
  match s with
  | EmptyString => [EmptyString]
  | String c r =>
      if Ascii.eqb c sep then EmptyString :: split_char sep r
      else match split_char sep r with
           | w :: ws => String c w :: ws
           | [] => [String c EmptyString]
           end
  end.

Definition backslash : ascii := ascii_of_nat 92.

(** The two-character string made of a backslash and an asterisk. *)
Definition escaped_asterisk_text : string :=
  String backslash (String "*"%char EmptyString).

Definition drop (n : nat) (s : string) : string :=
  String.substring n (String.length s - n) s.

Definition startsWith (s p : string) : bool := String.prefix p s.

(** [String.prototype.includes] for a one-character needle. *)
Fixpoint includes_char (s : string) (n : nat) : bool :=
  match s with
  | EmptyString => false
  | String c r => char_is c n || includes_char r n
  end.

(* ------------------------------------------------------------------ *)
(** ** Tokenizer (src/src/tokenizer.ts) *)

Module Tokenizer.

Inductive TokenType :=
| PARAMETER_NAME | COLON | TYPE | SEMICOLON | OPEN_BRACE | CLOSE_BRACE
| OPEN_PAREN | CLOSE_PAREN | ARROW | OPERATOR | SPREAD | ESCAPED_ASTERISK
| LT | GT.

Definition TokenType_eqb (a b : TokenType) : bool :=
  match a, b with
  | PARAMETER_NAME, PARAMETER_NAME | COLON, COLON | TYPE, TYPE
  | SEMICOLON, SEMICOLON | OPEN_BRACE, OPEN_BRACE | CLOSE_BRACE, CLOSE_BRACE
  | OPEN_PAREN, OPEN_PAREN | CLOSE_PAREN, CLOSE_PAREN | ARROW, ARROW
  | OPERATOR, OPERATOR | SPREAD, SPREAD | ESCAPED_ASTERISK, ESCAPED_ASTERISK
  | LT, LT | GT, GT => true
  | _, _ => false
  end.

Record Token := mkToken { type : TokenType; value : string; position : nat }.

(** The private fields of a [Tokenizer] object. *)
Record State := mkState {
  input : string;
  pos : nat;
  tokens : list Token;
  lastContextToken : option TokenType
}.

Definition addToken (st : State) (ty : TokenType) (v : string) (p : nat) : State :=
  mkState (input st) (pos st) (tokens st ++ [mkToken ty v p]) (Some ty).

Definition setPos (st : State) (p : nat) : State :=
  mkState (input st) p (tokens st) (lastContextToken st).

(** [IDENTIFIER_CHARS] lookup, with the [code > 127] fallback. *)
Definition isIdentifierChar (c : ascii) : bool :=
  let n := code c in
  if n <? 128 then
    ((48 <=? n) && (n <=? 57)) || ((65 <=? n) && (n <=? 90))
    || ((97 <=? n) && (n <=? 122))
    || Nat.eqb n 95 || Nat.eqb n 45 || Nat.eqb n 36 || Nat.eqb n 46
    || Nat.eqb n 47 || Nat.eqb n 91 || Nat.eqb n 93 || Nat.eqb n 60
    || Nat.eqb n 62
  else 127 <? n.

Definition determineIdentifierTypeFast (last : option TokenType) : TokenType :=
  match last with
  | Some COLON => TYPE
  | Some SEMICOLON | Some OPEN_BRACE | Some OPEN_PAREN => PARAMETER_NAME
  | Some PARAMETER_NAME | Some SPREAD | Some TYPE => PARAMETER_NAME
  | _ => PARAMETER_NAME
  end.

(** [while (pos < input.length && isIdentifierChar(input[pos])) pos++],
    driven by a fuel of [length input]. *)
Fixpoint skipIdentifierChars (s : string) (fuel p : nat) : nat :=
  match fuel with
  | O => p
  | S f =>
      if (p <? String.length s)
         && match char_at s p with Some c => isIdentifierChar c | None => false end
      then skipIdentifierChars s f (S p)
      else p
  end.

Definition scanIdentifier (st : State) : State :=
  let s := input st in
  let start := pos st in
  let len := String.length s in
  if char_at_is s start 46
     && (start + 1 <? len) && char_at_is s (start + 1) 46
     && (start + 2 <? len) && char_at_is s (start + 2) 46
  then
    let p := skipIdentifierChars s len (start + 3) in
    addToken (setPos st p) SPREAD (js_substring s start p) start
  else
    let p := skipIdentifierChars s len start in
    if start <? p then
      let ty := determineIdentifierTypeFast (lastContextToken st) in
      addToken (setPos st p) ty (js_substring s start p) start
    else setPos st (S start).

Definition single_char_token (n : nat) : option TokenType :=
  if Nat.eqb n 58 then Some COLON
  else if Nat.eqb n 59 then Some SEMICOLON
  else if Nat.eqb n 123 then Some OPEN_BRACE
  else if Nat.eqb n 125 then Some CLOSE_BRACE
  else if Nat.eqb n 40 then Some OPEN_PAREN
  else if Nat.eqb n 41 then Some CLOSE_PAREN
  else if Nat.eqb n 42 then Some OPERATOR
  else if Nat.eqb n 60 then Some LT
  else if Nat.eqb n 62 then Some GT
  else None.

Definition is_tok_space (c : ascii) : bool :=
  char_is c 32 || char_is c 9 || char_is c 10 || char_is c 13.

Definition scanToken (st : State) : State :=
  let s := input st in
  let p := pos st in
  let len := String.length s in
  match char_at s p with
  | Some c =>
      if is_tok_space c then setPos st (S p)
      else if char_is c 92 && (p + 1 <? len) && char_at_is s (p + 1) 42 then
        setPos (addToken st ESCAPED_ASTERISK escaped_asterisk_text p) (p + 2)
      else if char_is c 45 && (p + 1 <? len) && char_at_is s (p + 1) 62 then
        setPos (addToken st ARROW "->" p) (p + 2)
      else match single_char_token (code c) with
           | Some ty => setPos (addToken st ty (String c EmptyString) p) (S p)
           | None => scanIdentifier st
           end
  | None => scanIdentifier st
  end.

(** [while (this.position < this.input.length) this.scanToken();] *)
Fixpoint run (fuel : nat) (st : State) : State :=
  match fuel with
  | O => st
  | S f => if pos st <? String.length (input st) then run f (scanToken st) else st
  end.

(** [tokenize] on a [Tokenizer] object in any prior state: the fields are
    reset first, then the scan loop runs. It returns the object's new state
    and the token array. *)
Definition tokenize_on (self : State) (s : string) : State * list Token :=
  let st0 := mkState s 0 [] None in
  let st := run (String.length s) st0 in
  (st, tokens st).

Definition tokenize (s : string) : list Token :=
  snd (tokenize_on (mkState EmptyString 0 [] None) s).

End Tokenizer.

(* ------------------------------------------------------------------ *)
(** ** Preprocessing (Parser.preprocessParameterString, src/src/parser.ts) *)

Module Preprocess.

(** Global replacement of a literal, as [s.replace(/lit/g, repl)] for a
    regular expression matching exactly the non-empty literal [pat]. *)
Fixpoint replace_lit (pat repl : string) (fuel : nat) (s : string) : string :=
  match fuel with
  | O => s
  | S f =>
      match s with
      | EmptyString => EmptyString
      | String c r =>
          if String.prefix pat s
          then repl ++ replace_lit pat repl f (drop (String.length pat) s)
          else String c (replace_lit pat repl f r)
      end
  end.

(** The character class [[^*:;{}() ]]. *)
Definition in_pair_class (c : ascii) : bool :=
  negb (char_is c 42 || char_is c 58 || char_is c 59 || char_is c 123
        || char_is c 125 || char_is c 40 || char_is c 41 || char_is c 32).

(** Greedy run of [[^*:;{}() ]+]: the run and what follows it. *)
Fixpoint take_class (s : string) : string * string :=
  match s with
  | EmptyString => (EmptyString, EmptyString)
  | String c r =>
      if in_pair_class c
      then let (w, rest) := take_class r in (String c w, rest)
      else (EmptyString, s)
  end.

(** Match of [\*(P[^*:;{}() ]+)\*] right after the opening asterisk, [r]
    being the text after it: the captured group and the text after the
    closing asterisk. The class excludes [*], so backtracking into the
    greedy run never yields another match. *)
Definition star_match (P r : string) : option (string * string) :=
  if String.prefix P r then
    match take_class (drop (String.length P) r) with
    | (String c0 w, String c rest) =>
        if char_is c 42 then Some (P ++ String c0 w, rest) else None
    | _ => None
    end
  else None.

(** [s.replace(/\*(P[^*:;{}() ]+)\*/gu, '$1')] *)
Fixpoint replace_star_pairs (P : string) (fuel : nat) (s : string) : string :=
  match fuel with
  | O => s
  | S f =>
      match s with
      | EmptyString => EmptyString
      | String c r =>
          if char_is c 42 then
            match star_match P r with
            | Some (g, rest) => g ++ replace_star_pairs P f rest
            | None => String c (replace_star_pairs P f r)
            end
          else String c (replace_star_pairs P f r)
      end
  end.

Definition placeholder : string := "___ESCAPED_ASTERISK___".

Definition preprocessParameterString (paramString : string) : string :=
  let s := paramString in
  let s := replace_lit escaped_asterisk_text placeholder (String.length s) s in
  let s := replace_star_pairs "..." (String.length s) s in
  let s := replace_star_pairs ";..." (String.length s) s in
  let s := replace_star_pairs EmptyString (String.length s) s in
  let s := replace_lit placeholder escaped_asterisk_text (String.length s) s in
  s.

End Preprocess.

(* ------------------------------------------------------------------ *)
(** ** Issues (types.ts, the file src/unnamed/part_014 of the repository) *)

Module Types.

(** The members of the [WarningCode] enum of types.ts. *)
Inductive WarningCode :=
| UNCLOSED_OPTIONAL_BLOCK | EXTRA_CLOSING_BRACE
| EMPTY_PARAMETER_DOUBLE_SEMICOLON | EMPTY_PARAMETER_AT_START
| UNEXPECTED_COLON_NO_PARAM | DOUBLE_COLON
| UNEXPECTED_SEMICOLON_AFTER_COLON | UNEXPECTED_CLOSING_BRACE_AFTER_COLON
| MISSING_CLOSING_PARENTHESIS | NON_ECMA_PARAMETER_NAME
| INVALID_TYPE_FORMAT | PARAMETER_EMPTY_TYPE_AFTER_COLON
| PARAMETER_MISSING_TYPE.

Definition WarningCode_eqb (a b : WarningCode) : bool :=
  match a, b with
  | UNCLOSED_OPTIONAL_BLOCK, UNCLOSED_OPTIONAL_BLOCK
  | EXTRA_CLOSING_BRACE, EXTRA_CLOSING_BRACE
  | EMPTY_PARAMETER_DOUBLE_SEMICOLON, EMPTY_PARAMETER_DOUBLE_SEMICOLON
  | EMPTY_PARAMETER_AT_START, EMPTY_PARAMETER_AT_START
  | UNEXPECTED_COLON_NO_PARAM, UNEXPECTED_COLON_NO_PARAM
  | DOUBLE_COLON, DOUBLE_COLON
  | UNEXPECTED_SEMICOLON_AFTER_COLON, UNEXPECTED_SEMICOLON_AFTER_COLON
  | UNEXPECTED_CLOSING_BRACE_AFTER_COLON, UNEXPECTED_CLOSING_BRACE_AFTER_COLON
  | MISSING_CLOSING_PARENTHESIS, MISSING_CLOSING_PARENTHESIS
  | NON_ECMA_PARAMETER_NAME, NON_ECMA_PARAMETER_NAME
  | INVALID_TYPE_FORMAT, INVALID_TYPE_FORMAT
  | PARAMETER_EMPTY_TYPE_AFTER_COLON, PARAMETER_EMPTY_TYPE_AFTER_COLON
  | PARAMETER_MISSING_TYPE, PARAMETER_MISSING_TYPE => true
  | _, _ => false
  end.

Inductive WarningLevel := LEVEL_1 | LEVEL_2.

(** The arguments [addIssue] passes to the message template of a code. *)
Inductive IssueArg := NoArg | CountArg (n : Z) | NameArg (s : string).

(** An issue is either built by [addIssue(code, ...args)] (its message
    and level are the code's [WARNING_DEFINITIONS] entry applied to the
    arguments) or written out literally with a message and a level. *)
Inductive MalformationIssue :=
| Coded (id : WarningCode) (arg : IssueArg)
| Literal (message : string) (level : WarningLevel).

Definition has_code (c : WarningCode) (i : MalformationIssue) : bool :=
  match i with Coded c' _ => WarningCode_eqb c c' | Literal _ _ => false end.

Record ParsedParameter := mkParam {
  name : string; param_type : string; optional : bool; spread : bool }.

End Types.

(* ------------------------------------------------------------------ *)
(** ** Malformation checker (src/src/malformation-checker.ts) *)

Module MalformationChecker.
Import Tokenizer Types.

(** The [issues] field of a [MalformationChecker] object. *)
Record State := mkState { issues : list MalformationIssue }.

Definition addIssue (st : State) (c : WarningCode) (a : IssueArg) : State :=
  mkState (issues st ++ [Coded c a]).

Definition is_type (t : option Token) (ty : TokenType) : bool :=
  match t with Some t => TokenType_eqb (type t) ty | None => false end.

Definition prev (toks : list Token) (i : nat) : option Token :=
  match i with O => None | S j => nth_error toks j end.

Definition brace_step (acc : State * Z) (t : Token) : State * Z :=
  let (st, d) := acc in
  match type t with
  | OPEN_BRACE => (st, (d + 1)%Z)
  | CLOSE_BRACE =>
      let d := (d - 1)%Z in
      if (d <? 0)%Z then (addIssue st EXTRA_CLOSING_BRACE NoArg, 0%Z) else (st, d)
  | _ => (st, d)
  end.

Definition checkBraceBalanceFast (st : State) (toks : list Token) : State :=
  let (st, d) := fold_left brace_step toks (st, 0%Z) in
  if (0 <? d)%Z then addIssue st UNCLOSED_OPTIONAL_BLOCK (CountArg d) else st.

Definition checkEmptyParametersFast (st : State) (toks : list Token) : State :=
  fold_left (fun st i =>
    let token := nth_error toks i in
    let nextToken := nth_error toks (S i) in
    let prevToken := prev toks i in
    if is_type token SEMICOLON then
      let st := if is_type nextToken SEMICOLON
                then addIssue st EMPTY_PARAMETER_DOUBLE_SEMICOLON NoArg else st in
      match prevToken with
      | None => addIssue st EMPTY_PARAMETER_AT_START NoArg
      | Some _ => st
      end
    else st) (seq 0 (length toks)) st.

Definition checkUnexpectedTokensFast (st : State) (toks : list Token) : State :=
  fold_left (fun st i =>
    let token := nth_error toks i in
    let nextToken := nth_error toks (S i) in
    let prevToken := prev toks i in
    if is_type token COLON then
      let st := if negb (is_type prevToken PARAMETER_NAME || is_type prevToken SPREAD)
                then addIssue st UNEXPECTED_COLON_NO_PARAM NoArg else st in
      if is_type nextToken COLON then addIssue st DOUBLE_COLON NoArg else st
    else st) (seq 0 (length toks)) st.

Definition checkEmptyParameters (st : State) (toks : list Token) : State :=
  fold_left (fun st i =>
    let token := nth_error toks i in
    let nextToken := nth_error toks (S i) in
    let st := if Nat.eqb i 0 && is_type token SEMICOLON
              then addIssue st EMPTY_PARAMETER_AT_START NoArg else st in
    if is_type token SEMICOLON && is_type nextToken SEMICOLON
    then addIssue st EMPTY_PARAMETER_DOUBLE_SEMICOLON NoArg else st)
    (seq 0 (length toks)) st.

Definition checkUnexpectedTokens (st : State) (toks : list Token) : State :=
  fold_left (fun st i =>
    let token := nth_error toks i in
    let nextToken := nth_error toks (S i) in
    let st :=
      match nextToken with
      | Some _ =>
          if is_type token COLON then
            let st := if is_type nextToken SEMICOLON
                      then addIssue st UNEXPECTED_SEMICOLON_AFTER_COLON NoArg else st in
            if is_type nextToken CLOSE_BRACE
            then addIssue st UNEXPECTED_CLOSING_BRACE_AFTER_COLON NoArg else st
          else st
      | None => st
      end in
    match nextToken with
    | None => if is_type token COLON
              then addIssue st PARAMETER_EMPTY_TYPE_AFTER_COLON NoArg else st
    | Some _ => st
    end) (seq 0 (length toks)) st.

(** One iteration of the token loop of [checkStructuralIssuesFast].
    Its two calls [addIssue(WarningCode.MALFORMED_PARAMETER_NAME, ...)] and
    [addIssue(WarningCode.INVALID_TYPE_FORWARD_SLASH, ...)] name members the
    [WarningCode] enum of types.ts does not have: the code is [undefined],
    [WARNING_DEFINITIONS[undefined]] is [undefined], and reading its
    [message] throws a [TypeError] before anything is pushed. [None] is
    that throw. *)
Definition structural_step (st : option State) (t : Token) : option State :=
  match st with
  | None => None
  | Some st =>
      let st := if TokenType_eqb (type t) PARAMETER_NAME && includes_char (value t) 42
                then None else Some st in
      match st with
      | None => None
      | Some st =>
          if TokenType_eqb (type t) TYPE && includes_char (value t) 47
          then None else Some st
      end
  end.

Definition checkStructuralIssuesFast (st : State) (toks : list Token) : option State :=
  match fold_left structural_step toks (Some st) with
  | None => None
  | Some st =>
      let st := checkEmptyParameters st toks in
      Some (checkUnexpectedTokens st toks)
  end.

(** [checkMalformations] on an object in any prior state; the filter on
    [TokenType.WHITESPACE] (absent from the enum, hence [undefined])
    keeps every token. The result is [None] when the call throws; the
    object then keeps the issues pushed before the throw. *)
Definition checkMalformations_on (self : State) (tokens : list Token)
  : State * option (list MalformationIssue) :=
  let st := mkState [] in
  let nonWhitespaceTokens := tokens in
  let st := checkBraceBalanceFast st nonWhitespaceTokens in
  let st := checkEmptyParametersFast st nonWhitespaceTokens in
  let st := checkUnexpectedTokensFast st nonWhitespaceTokens in
  match checkStructuralIssuesFast st nonWhitespaceTokens with
  | Some st => (st, Some (issues st))
  | None => (st, None)
  end.

Definition checkMalformations (tokens : list Token) : option (list MalformationIssue) :=
  snd (checkMalformations_on (mkState []) tokens).

(** The parenthesis scan of [checkSyntaxStructure]: the loop over [i] with
    its [break], returning [(paramStart, paramEnd)]. *)
Fixpoint scan_structure (s : string) (i : nat) (paramStart paramEnd parenDepth : Z)
  : Z * Z :=
  match s with
  | EmptyString => (paramStart, paramEnd)
  | String c r =>
      if char_is c 40 then
        let paramStart := if (paramStart =? -1)%Z then Z.of_nat (S i) else paramStart in
        scan_structure r (S i) paramStart paramEnd (parenDepth + 1)
      else if char_is c 41 then
        let parenDepth := (parenDepth - 1)%Z in
        if (parenDepth =? 0)%Z && negb (paramStart =? -1)%Z
        then (paramStart, Z.of_nat i)
        else scan_structure r (S i) paramStart paramEnd parenDepth
      else scan_structure r (S i) paramStart paramEnd parenDepth
  end.

Record SyntaxStructure := mkStructure {
  paramString : option string;
  paramEnd : Z;
  structuralIssues : list MalformationIssue
}.

(** [checkSyntaxStructure] (it builds its own issue list and leaves the
    object's [issues] alone). *)
Definition checkSyntaxStructure (syntaxString : string) : SyntaxStructure :=
  let (paramStart, paramEnd) := scan_structure syntaxString 0 (-1) (-1) 0 in
  if (paramStart =? -1)%Z then mkStructure None (-1) []
  else if (paramEnd =? -1)%Z
  then mkStructure None (-1) [Coded MISSING_CLOSING_PARENTHESIS NoArg]
  else mkStructure
         (Some (trim (js_substring syntaxString (Z.to_nat paramStart) (Z.to_nat paramEnd))))
         paramEnd [].

End MalformationChecker.

(* ------------------------------------------------------------------ *)
(** ** Parameter checker (src/src/parameter-checker.ts) *)

Module ParameterChecker.
Import Tokenizer Types.

(** The [issues] field of a [ParameterChecker] object. *)
Record State := mkState { issues : list MalformationIssue }.

Definition addIssue (st : State) (c : WarningCode) (a : IssueArg) : State :=
  mkState (issues st ++ [Coded c a]).

Definition is_type (t : option Token) (ty : TokenType) : bool :=
  match t with Some t => TokenType_eqb (type t) ty | None => false end.

(** The local variables of [buildParametersFast]. *)
Record Loop := mkLoop {
  checker : State;
  parameters : list ParsedParameter;
  currentParam : option ParsedParameter;
  optionalDepth : Z
}.

Definition is_nonempty (s : string) : bool :=
  match s with EmptyString => false | _ => true end.

Definition finishParameterFast (param : ParsedParameter)
  (parameters : list ParsedParameter) (optionalDepth : Z) : list ParsedParameter :=
  if negb (is_nonempty (name param)) then parameters
  else
    let finalParam :=
      mkParam (name param)
              (if is_nonempty (param_type param) then param_type param else "unknown")
              (optional param || (0 <? optionalDepth)%Z)
              (spread param) in
    if is_nonempty (name finalParam)
       && negb (String.eqb (name finalParam) "}")
       && negb (String.eqb (name finalParam) "{")
       && negb (String.eqb (name finalParam) ";")
    then parameters ++ [finalParam] else parameters.

(** [if (currentParam && currentParam.name) finishParameterFast(...)] *)
Definition flush (l : Loop) : list ParsedParameter :=
  match currentParam l with
  | Some p => if is_nonempty (name p)
              then finishParameterFast p (parameters l) (optionalDepth l)
              else parameters l
  | None => parameters l
  end.

Definition missing_type_check (st : State) (toks : list Token) (i : nat)
  (nm : string) : State :=
  let nextToken := nth_error toks (S i) in
  match nextToken with
  | Some nt =>
      if negb (TokenType_eqb (type nt) COLON) then
        if TokenType_eqb (type nt) SEMICOLON || TokenType_eqb (type nt) OPEN_BRACE
           || TokenType_eqb (type nt) CLOSE_BRACE || Nat.eqb i (length toks - 1)
        then addIssue st PARAMETER_MISSING_TYPE (NameArg nm) else st
      else st
  | None => st
  end.

Definition step (toks : list Token) (l : Loop) (i : nat) : Loop :=
  match nth_error toks i with
  | None => l
  | Some token =>
      match type token with
      | OPEN_BRACE =>
          mkLoop (checker l) (parameters l) (currentParam l) (optionalDepth l + 1)%Z
      | CLOSE_BRACE =>
          mkLoop (checker l) (parameters l) (currentParam l) (optionalDepth l - 1)%Z
      | PARAMETER_NAME =>
          let ps := flush l in
          let cur := mkParam (value token) "unknown" (0 <? optionalDepth l)%Z false in
          mkLoop (missing_type_check (checker l) toks i (value token))
                 ps (Some cur) (optionalDepth l)
      | SPREAD =>
          let paramName := if startsWith (value token) "..."
                           then drop 3 (value token) else value token in
          let ps := flush l in
          let cur := mkParam paramName "unknown" (0 <? optionalDepth l)%Z true in
          mkLoop (missing_type_check (checker l) toks i paramName)
                 ps (Some cur) (optionalDepth l)
      | TYPE =>
          match currentParam l with
          | Some p =>
              if is_type (match i with O => None | S j => nth_error toks j end) COLON
              then mkLoop (checker l) (parameters l)
                          (Some (mkParam (name p) (value token) (optional p) (spread p)))
                          (optionalDepth l)
              else l
          | None => l
          end
      | SEMICOLON =>
          match currentParam l with
          | Some p =>
              if is_nonempty (name p)
              then mkLoop (checker l) (flush l) None (optionalDepth l)
              else l
          | None => l
          end
      | OPERATOR | ESCAPED_ASTERISK =>
          mkLoop (checker l)
                 (parameters l ++ [mkParam (value token) "operator"
                                     (0 <? optionalDepth l)%Z false])
                 (currentParam l) (optionalDepth l)
      | _ => l
      end
  end.

Definition buildParametersFast (st : State) (toks : list Token)
  : State * list ParsedParameter :=
  let l := fold_left (step toks) (seq 0 (length toks)) (mkLoop st [] None 0%Z) in
  (checker l, flush l).

(** [checkParameters] on an object in any prior state. *)
Definition checkParameters_on (self : State) (tokens : list Token)
  : State * (list ParsedParameter * list MalformationIssue) :=
  let st := mkState [] in
  let (st, parameters) := buildParametersFast st tokens in
  (st, (parameters, issues st)).

Definition checkParameters (tokens : list Token)
  : list ParsedParameter * list MalformationIssue :=
  snd (checkParameters_on (mkState []) tokens).

End ParameterChecker.

(* ------------------------------------------------------------------ *)
(** ** Parser (the token-based [Parser] class of src/src/parser.ts) *)

Module Parser.
Import Types.

Record ParsedReturnType := mkReturn { rname : option string; rtype : option string }.

Record MalformationInfo := mkInfo {
  isMalformed : bool; issues : list MalformationIssue }.

Record ParsedVariant := mkVariant {
  variant : string;
  parameters : list ParsedParameter;
  returnType : option ParsedReturnType;
  malformation : option MalformationInfo
}.

(** The private fields of a [Parser] object: its three collaborators. *)
Record State := mkState {
  tokenizer : Tokenizer.State;
  malformationChecker : MalformationChecker.State;
  parameterChecker : ParameterChecker.State
}.

(** [String.prototype.split(sep)] for a non-empty separator. *)
Fixpoint split_sep (sep : string) (fuel : nat) (acc s : string) : list string :=
  match fuel with
  | O => [acc ++ s]
  | S f =>
      match s with
      | EmptyString => [acc]
      | String c r =>
          if String.prefix sep s
          then acc :: split_sep sep f EmptyString (drop (String.length sep) s)
          else split_sep sep f (acc ++ String c EmptyString) r
      end
  end.

Definition split (s sep : string) : list string :=
  split_sep sep (String.length s) EmptyString s.

(** The parenthesis scan of [parseSyntax]: the loop over [i] with its
    [break], returning [(paramStart, paramEnd)]. *)
Fixpoint scan_parens (s : string) (i : nat) (paramStart paramEnd parenDepth : Z)
  : Z * Z :=
  match s with
  | EmptyString => (paramStart, paramEnd)
  | String c r =>
      if char_is c 40 then
        let paramStart := if (paramStart =? -1)%Z then Z.of_nat (S i) else paramStart in
        scan_parens r (S i) paramStart paramEnd (parenDepth + 1)
      else if char_is c 41 then
        let parenDepth := (parenDepth - 1)%Z in
        if (parenDepth =? 0)%Z && negb (paramStart =? -1)%Z
        then (paramStart, Z.of_nat i)
        else scan_parens r (S i) paramStart paramEnd parenDepth
      else scan_parens r (S i) paramStart paramEnd parenDepth
  end.

Fixpoint indexOf_char (s : string) (n : nat) : option nat :=
  match s with
  | EmptyString => None
  | String c r =>
      if char_is c n then Some 0
      else match indexOf_char r n with Some k => Some (S k) | None => None end
  end.

(** [!x] for an optional string field. *)
Definition falsy (o : option string) : bool :=
  match o with None => true | Some s => negb (ParameterChecker.is_nonempty s) end.

Definition parseReturnType (syntaxString : string) (startIndex : nat)
  : option ParsedReturnType :=
  if String.length syntaxString <=? startIndex then None else
  let remainingString := trim (drop startIndex syntaxString) in
  if negb (ParameterChecker.is_nonempty remainingString) then None else
  let returnType :=
    if startsWith remainingString "->" then
      let afterArrow := trim (drop 2 remainingString) in
      match indexOf_char afterArrow 58 with
      | Some colonIndex =>
          mkReturn (Some (trim (String.substring 0 colonIndex afterArrow)))
                   (Some (trim (drop (S colonIndex) afterArrow)))
      | None => mkReturn (Some (trim afterArrow)) None
      end
    else if startsWith remainingString ":" then
      mkReturn None (Some (trim (drop 1 remainingString)))
    else mkReturn None None in
  if falsy (rname returnType) && falsy (rtype returnType) then None
  else Some returnType.

Definition preprocessParameterString := Preprocess.preprocessParameterString.

(** One iteration of the variant loop of [parseSyntax]: the variants it
    pushes, or [None] when [checkMalformations] throws (the exception
    leaves [parseSyntax]). *)
Definition parse_variant (self : State) (syntaxVariant : string)
  : State * option (list ParsedVariant) :=
  let trimmedVariant := trim syntaxVariant in
  if negb (ParameterChecker.is_nonempty trimmedVariant) then (self, Some []) else
  let (paramStart, paramEnd) := scan_parens trimmedVariant 0 (-1) (-1) 0 in
  if (paramStart =? -1)%Z || (paramEnd =? -1)%Z then
    let malformation :=
      mkInfo true
        (if (paramStart =? -1)%Z
         then [Literal "Missing opening parenthesis" LEVEL_1]
         else [Literal "Missing closing parenthesis" LEVEL_1]) in
    (self, Some [mkVariant trimmedVariant [] None (Some malformation)])
  else
  let paramString := trim (js_substring trimmedVariant (Z.to_nat paramStart)
                                                      (Z.to_nat paramEnd)) in
  if negb (ParameterChecker.is_nonempty paramString)
  then (self, Some [mkVariant trimmedVariant [] None None]) else
  let preprocessedString := preprocessParameterString paramString in
  let (tk, tokens) := Tokenizer.tokenize_on (tokenizer self) preprocessedString in
  match MalformationChecker.checkMalformations_on (malformationChecker self) tokens with
  | (mc, None) => (mkState tk mc (parameterChecker self), None)
  | (mc, Some malformationIssues) =>
  let (pc, parameterResult) :=
    ParameterChecker.checkParameters_on (parameterChecker self) tokens in
  let allIssues := (malformationIssues ++ snd parameterResult)%list in
  let returnType := parseReturnType trimmedVariant (S (Z.to_nat paramEnd)) in
  let malformation :=
    match allIssues with [] => None | _ => Some (mkInfo true allIssues) end in
  (mkState tk mc pc,
   Some [mkVariant trimmedVariant (fst parameterResult) returnType malformation])
  end.

Fixpoint parse_variants (self : State) (vs : list string)
  : State * option (list ParsedVariant) :=
  match vs with
  | [] => (self, Some [])
  | v :: vs' =>
      match parse_variant self v with
      | (self, None) => (self, None)
      | (self, Some r) =>
          match parse_variants self vs' with
          | (self, None) => (self, None)
          | (self, Some rs) => (self, Some (r ++ rs)%list)
          end
      end
  end.

(** [parseSyntax] on a [Parser] object in a given state; [None] when it
    throws. *)
Definition parseSyntax_on (self : State) (syntax : string)
  : State * option (list ParsedVariant) :=
  if negb (ParameterChecker.is_nonempty syntax) then (self, Some [])
  else parse_variants self (split syntax "<br/>").

Definition init : State :=
  mkState (Tokenizer.mkState EmptyString 0 [] None)
          (MalformationChecker.mkState []) (ParameterChecker.mkState []).

(** [new Parser().parseSyntax(syntax)] *)
Definition parseSyntax (syntax : string) : option (list ParsedVariant) :=
  snd (parseSyntax_on init syntax).

End Parser.

(* ------------------------------------------------------------------ *)
(** ** The character-level [Parser] class of src/src/parser.ts (lines 32-380) *)

Module OldParser.
Import Types.

(** [ParsedVariant] of that class: no malformation field. *)
Record ParsedVariant := mkVariant {
  variant : string;
  parameters : list ParsedParameter;
  returnType : option Parser.ParsedReturnType
}.

Inductive StateType := NORMAL | IN_OPTIONAL | IN_PARAM_NAME | IN_TYPE.

(** The local variables of the state machine of [parseParameters];
    [currentParam] is never [null] once [resetParam] has run. *)
Record Machine := mkMachine {
  state : StateType;
  optionalDepth : Z;
  currentParam : ParsedParameter;
  buffer : string;
  parameters_acc : list ParsedParameter
}.

Definition resetParam : ParsedParameter := mkParam EmptyString "unknown" false false.

Definition set_state (m : Machine) (s : StateType) : Machine :=
  mkMachine s (optionalDepth m) (currentParam m) (buffer m) (parameters_acc m).

Definition set_depth (m : Machine) (d : Z) : Machine :=
  mkMachine (state m) d (currentParam m) (buffer m) (parameters_acc m).

Definition set_buffer (m : Machine) (b : string) : Machine :=
  mkMachine (state m) (optionalDepth m) (currentParam m) b (parameters_acc m).

Definition push (m : Machine) (p : ParsedParameter) : Machine :=
  mkMachine (state m) (optionalDepth m) (currentParam m) (buffer m) (parameters_acc m ++ [p])%list.

(** [currentParam!.name = v] *)
Definition set_name (m : Machine) (v : string) : Machine :=
  let p := currentParam m in
  mkMachine (state m) (optionalDepth m) (mkParam v (param_type p) (optional p) (spread p))
            (buffer m) (parameters_acc m).

(** [currentParam!.type = v] *)
Definition set_type (m : Machine) (v : string) : Machine :=
  let p := currentParam m in
  mkMachine (state m) (optionalDepth m) (mkParam (name p) v (optional p) (spread p))
            (buffer m) (parameters_acc m).

(** [s || 'unknown'] *)
Definition or_unknown (s : string) : string :=
  if ParameterChecker.is_nonempty s then s else "unknown".

Definition finishParam (m : Machine) : Machine :=
  let p := currentParam m in
  let ps :=
    if ParameterChecker.is_nonempty (name p) then
      let nm := trim (name p) in
      let ty := trim (param_type p) in
      let opt := if (0 <? optionalDepth m)%Z then true else optional p in
      let nm_sp := if startsWith nm "..." then (drop 3 nm, true) else (nm, spread p) in
      let nm := fst nm_sp in
      if ParameterChecker.is_nonempty nm && negb (String.eqb nm "}")
         && negb (String.eqb nm "{") && negb (String.eqb nm ";")
      then (parameters_acc m ++ [mkParam nm ty opt (snd nm_sp)])%list
      else parameters_acc m
    else parameters_acc m in
  mkMachine (state m) (optionalDepth m) resetParam (buffer m) ps.

(** [state = optionalDepth > 0 ? STATES.IN_OPTIONAL : STATES.NORMAL] *)
Definition back_state (m : Machine) : Machine :=
  set_state m (if (0 <? optionalDepth m)%Z then IN_OPTIONAL else NORMAL).

(** The [\*] branch of the [NORMAL] and [IN_OPTIONAL] states, taken when
    the character is a backslash and the next one an asterisk. *)
Definition escaped_pair (m : Machine) (c d : ascii) : bool :=
  match state m with
  | NORMAL | IN_OPTIONAL => char_is c 92 && char_is d 42
  | _ => false
  end.

Definition push_marker (m : Machine) : Machine :=
  match state m with
  | NORMAL => push m (mkParam "*" "marker" (0 <? optionalDepth m)%Z false)
  | _ => push m (mkParam "*" "marker" true false)
  end.

(** One pass of the [switch] for the character [c], the [\*] branch apart. *)
Definition step (m : Machine) (c : ascii) : Machine :=
  match state m with
  | NORMAL =>
      if char_is c 123 then set_state (set_depth m (optionalDepth m + 1)) IN_OPTIONAL
      else if char_is c 42 then push m (mkParam "*" "operator" (0 <? optionalDepth m)%Z false)
      else if char_is c 59 then finishParam m
      else if negb (char_is c 32) && negb (char_is c 9)
      then set_state (set_buffer m (String c EmptyString)) IN_PARAM_NAME
      else m
  | IN_OPTIONAL =>
      if char_is c 123 then set_depth m (optionalDepth m + 1)
      else if char_is c 125 then
        let m := set_depth m (optionalDepth m - 1) in
        if (optionalDepth m =? 0)%Z then set_state m NORMAL else m
      else if char_is c 42 then push m (mkParam "*" "operator" true false)
      else if char_is c 59 then finishParam m
      else if negb (char_is c 32) && negb (char_is c 9)
      then set_state (set_buffer m (String c EmptyString)) IN_PARAM_NAME
      else m
  | IN_PARAM_NAME =>
      if char_is c 58 then set_state (set_buffer (set_name m (trim (buffer m))) EmptyString) IN_TYPE
      else if char_is c 59 then
        back_state (finishParam (set_buffer (set_name m (trim (buffer m))) EmptyString))
      else if char_is c 123 then
        let m := finishParam (set_buffer (set_name m (trim (buffer m))) EmptyString) in
        set_state (set_depth m (optionalDepth m + 1)) IN_OPTIONAL
      else if char_is c 125 then
        let m := finishParam (set_buffer (set_name m (trim (buffer m))) EmptyString) in
        back_state (set_depth m (optionalDepth m - 1))
      else set_buffer m (buffer m ++ String c EmptyString)
  | IN_TYPE =>
      if char_is c 59 then
        back_state (finishParam (set_buffer (set_type m (or_unknown (trim (buffer m)))) EmptyString))
      else if char_is c 123 then
        let m := finishParam (set_buffer (set_type m (or_unknown (trim (buffer m)))) EmptyString) in
        set_state (set_depth m (optionalDepth m + 1)) IN_OPTIONAL
      else if char_is c 125 then
        let m := finishParam (set_buffer (set_type m (or_unknown (trim (buffer m)))) EmptyString) in
        back_state (set_depth m (optionalDepth m - 1))
      else set_buffer m (buffer m ++ String c EmptyString)
  end.

(** [while (i < cleanedParamString.length) { ... }], over the characters
    still to read: the [\*] branch consumes two of them ([i += 2]), every
    other branch one. *)
Fixpoint loop (s : string) (m : Machine) : Machine :=
  match s with
  | EmptyString => m
  | String c r =>
      match r with
      | String d r' => if escaped_pair m c d then loop r' (push_marker m) else loop r (step m c)
      | EmptyString => loop r (step m c)
      end
  end.

Definition init : Machine := mkMachine NORMAL 0%Z resetParam EmptyString [].

(** What [parseParameters] does after preprocessing. *)
Definition parse_cleaned (cleanedParamString : string) : list ParsedParameter :=
  let m := loop cleanedParamString init in
  let m := match state m with
           | IN_TYPE => set_type m (or_unknown (trim (buffer m)))
           | _ => m
           end in
  parameters_acc (finishParam m).

Definition parseParameters (paramString : string) : list ParsedParameter :=
  parse_cleaned (Preprocess.preprocessParameterString paramString).

Definition parse_variant (syntaxVariant : string) : list ParsedVariant :=
  let trimmedVariant := trim syntaxVariant in
  if negb (ParameterChecker.is_nonempty trimmedVariant) then [] else
  let (paramStart, paramEnd) := Parser.scan_parens trimmedVariant 0 (-1) (-1) 0 in
  if (paramStart =? -1)%Z || (paramEnd =? -1)%Z
  then [mkVariant trimmedVariant [] None] else
  let paramString := trim (js_substring trimmedVariant (Z.to_nat paramStart)
                                                      (Z.to_nat paramEnd)) in
  if negb (ParameterChecker.is_nonempty paramString)
  then [mkVariant trimmedVariant [] None] else
  let parameters := parseParameters paramString in
  let returnType := Parser.parseReturnType trimmedVariant (S (Z.to_nat paramEnd)) in
  [mkVariant trimmedVariant parameters returnType].

Definition parseSyntax (syntax : string) : list ParsedVariant :=
  if negb (ParameterChecker.is_nonempty syntax) then []
  else concat (map parse_variant (Parser.split syntax "<br/>")).

End OldParser.

(* ------------------------------------------------------------------ *)
(** ** Type validation (SyntaxChecker.isTypeValid, src/src/checker.ts) *)

Module Checker.

(** A JavaScript [Set<string>] as its insertion-ordered list of members. *)
Definition set_has (set : list string) (x : string) : bool :=
  existsb (String.eqb x) set.

Definition set_add (set : list string) (x : string) : list string :=
  if set_has set x then set else (set ++ [x])%list.

Definition lower_trim (s : string) : string := trim (toLowerCase s).

(** The set-based form, [isTypeValid(parsedTypes: string, actualTypes: string[])]. *)
Definition isTypeValid (parsedTypes : string) (actualTypes : list string) : bool :=
  let set1 := fold_left (fun set t => set_add set (lower_trim t))
                        (split_char ","%char parsedTypes) [] in
  let set2 := fold_left (fun set t => set_add set (lower_trim t)) actualTypes [] in
  forallb (set_has set2) set1.

(** The regular expression [/[,\/]|\s+or\s+/] tried at the head of [s]:
    the length of the match, if any. *)
Fixpoint ws_run (s : string) : nat :=
  match s with
  | String c r => if is_js_space c then S (ws_run r) else 0
  | EmptyString => 0
  end.

Definition sep_match (s : string) : option nat :=
  match s with
  | EmptyString => None
  | String c _ =>
      if char_is c 44 || char_is c 47 then Some 1 else
      let k := ws_run s in
      if (0 <? k) && String.prefix "or" (drop k s) then
        let k' := ws_run (drop (k + 2) s) in
        if 0 <? k' then Some (k + 2 + k') else None
      else None
  end.

(** [actualType.split(/[,\/]|\s+or\s+/)] *)
Fixpoint split_sep_re (fuel : nat) (acc s : string) : list string :=
  match fuel with
  | O => [acc ++ s]
  | S f =>
      match s with
      | EmptyString => [acc]
      | String c r =>
          match sep_match s with
          | Some k => acc :: split_sep_re f EmptyString (drop k s)
          | None => split_sep_re f (acc ++ String c EmptyString) r
          end
      end
  end.

(** The [typeEquivalences] object lookup: only own string properties. *)
Definition typeEquivalences (k : string) : option string :=
  if String.eqb k "real" then Some "number"
  else if String.eqb k "number" then Some "real"
  else None.

Definition equiv_is (k v : string) : bool :=
  match typeEquivalences k with Some w => String.eqb w v | None => false end.

(** The single-type form, [isTypeValid(parsedType: string, actualType: string)]. *)
Definition isTypeValid_single (parsedType actualType : string) : bool :=
  let actualTypeLower := trim (toLowerCase actualType) in
  let parsedTypeLower := trim (toLowerCase parsedType) in
  if String.eqb parsedTypeLower "any" then true
  else if String.eqb actualTypeLower parsedTypeLower then true
  else if equiv_is parsedTypeLower actualTypeLower then true
  else
    let actualTypeList :=
      filter (fun t => 0 <? String.length t)
             (map trim (split_sep_re (String.length actualTypeLower) EmptyString
                                     actualTypeLower)) in
    if existsb (String.eqb parsedTypeLower) actualTypeList then true
    else existsb (equiv_is parsedTypeLower) actualTypeList.

End Checker.

(* ------------------------------------------------------------------ *)
(** ** Parameter validation of the first [SyntaxChecker] (src/src/checker.ts, lines 98-290) *)

Module SyntaxChecker.
Import Types Parser.

(** A documentation parameter: the array [[name, type, direction, description]]. *)
Definition DocumentationParameter := list string.

Record TypeMismatch := mkMismatch { mm_name : string; syntaxType : string; paramsType : string }.

Definition is_return_direction (d : option string) : bool :=
  match d with
  | Some d => String.eqb d "&#8592;" || String.eqb d "<-"
  | None => false
  end.

(** The predicate given to [params.find]. *)
Definition return_param_match (rt : ParsedReturnType) (p : DocumentationParameter) : bool :=
  match nth_error p 0 with
  | Some p0 =>
      if negb (ParameterChecker.is_nonempty p0) then false else
      let paramName := toLowerCase p0 in
      if negb (is_return_direction (nth_error p 2)) then false
      else if String.eqb paramName "result" || String.eqb paramName "function result" then true
      else match rname rt with
           | Some n => ParameterChecker.is_nonempty n && String.eqb paramName (toLowerCase n)
           | None => false
           end
  | None => false
  end.

(** [variant.returnType!.name || 'Function result'] *)
Definition result_name (rt : ParsedReturnType) : string :=
  match rname rt with
  | Some n => if ParameterChecker.is_nonempty n then n else "Function result"
  | None => "Function result"
  end.

(** [checkReturnTypeMismatches] (lines 181-238).
    [None] stands for the [TypeError] of [isTypeValid(syntaxType, undefined)]
    when the parameter found has no type entry. *)
Definition checkReturnTypeMismatches (variant : ParsedVariant)
  (params : list DocumentationParameter) : option (list TypeMismatch) :=
  match returnType variant with
  | None => Some []
  | Some rt =>
      let actualReturnParam := find (return_param_match rt) params in
      let typed := match rtype rt with
                   | Some t => ParameterChecker.is_nonempty t
                   | None => false
                   end in
      let syntaxType := match rtype rt with Some t => t | None => EmptyString end in
      let returnTypeMismatches :=
        if typed && match actualReturnParam with None => true | Some _ => false end
        then [mkMismatch (result_name rt) syntaxType "missing"] else [] in
      match actualReturnParam with
      | Some p =>
          if typed then
            match nth_error p 1 with
            | None => None
            | Some actualType =>
                Some (returnTypeMismatches ++
                      (if Checker.isTypeValid_single syntaxType actualType then []
                       else [mkMismatch (result_name rt) syntaxType actualType]))%list
            end
          else Some returnTypeMismatches
      | None => Some returnTypeMismatches
      end
  end.

(** [direction === '&#8594;' || direction === '->' || direction === '&#8596;' || direction === '<->'] *)
Definition is_input_direction (d : option string) : bool :=
  match d with
  | Some d => String.eqb d "&#8594;" || String.eqb d "->" ||
              String.eqb d "&#8596;" || String.eqb d "<->"
  | None => false
  end.

(** [x === s] for an entry [x] of a documentation parameter that may be absent. *)
Definition entry_is (x : option string) (s : string) : bool :=
  match x with Some x => String.eqb x s | None => false end.

(** [l.map(f)] where [f] throws ([None]) on some element. *)
Fixpoint map_throw {A B : Type} (f : A -> option B) (l : list A) : option (list B) :=
  match l with
  | [] => Some []
  | a :: r => match f a with
              | None => None
              | Some b => option_map (cons b) (map_throw f r)
              end
  end.

(** [extractActualParamNames] (lines 98-112); [None] would be the
    [TypeError] of [param[0].toLowerCase()] on an absent name. *)
Definition extractActualParamNames (params : list DocumentationParameter)
  : option (list string) :=
  match params with
  | [] => Some []
  | _ =>
      map_throw (fun param => option_map toLowerCase (nth_error param 0))
        (filter (fun param =>
                   let direction := nth_error param 2 in
                   let name := nth_error param 0 in
                   (is_input_direction direction || is_return_direction direction) &&
                   negb (entry_is name "Result") &&
                   negb (entry_is name "Function result")) params)
  end.

(** The predicate given to [params.find] for a parsed parameter. *)
Definition type_param_match (parsedParam : ParsedParameter) (p : DocumentationParameter) : bool :=
  match nth_error p 0 with
  | Some p0 => ParameterChecker.is_nonempty p0 &&
               String.eqb (toLowerCase p0) (toLowerCase (name parsedParam)) &&
               is_input_direction (nth_error p 2)
  | None => false
  end.

(** [checkTypeMismatches] (lines 147-173): the body of the [forEach]
    pushing to [typeMismatches]; [None] is the [TypeError] of [isTypeValid]
    on an absent [actualParam[1]]. *)
Definition checkTypeMismatches_step (params : list DocumentationParameter)
  (acc : option (list TypeMismatch)) (parsedParam : ParsedParameter)
  : option (list TypeMismatch) :=
  match acc with
  | None => None
  | Some typeMismatches =>
      if negb (String.eqb (name parsedParam) "*") && negb (spread parsedParam) then
        match find (type_param_match parsedParam) params with
        | Some actualParam =>
            if negb (String.eqb (param_type parsedParam) "unknown") then
              match nth_error actualParam 1 with
              | None => None
              | Some actualType =>
                  if Checker.isTypeValid_single (param_type parsedParam) actualType
                  then Some typeMismatches
                  else Some (typeMismatches ++
                             [mkMismatch (name parsedParam) (param_type parsedParam) actualType])%list
              end
            else Some typeMismatches
        | None => Some typeMismatches
        end
      else Some typeMismatches
  end.

Definition checkTypeMismatches (variant : ParsedVariant)
  (params : list DocumentationParameter) : option (list TypeMismatch) :=
  fold_left (checkTypeMismatches_step params) (parameters variant) (Some []).

Record ValidationResult := mkValidation {
  extraParams : list string;
  typeMismatches : list TypeMismatch;
  returnTypeMismatches : list TypeMismatch
}.

(** [validateVariantParameters] (lines 121-139). *)
Definition validateVariantParameters (variant : ParsedVariant)
  (params : list DocumentationParameter) (actualParamNames : list string)
  : option ValidationResult :=
  let parsedParamNames :=
    map (fun p => toLowerCase (name p)) (filter (fun p => negb (spread p)) (parameters variant)) in
  let extraParams :=
    filter (fun parsed => negb (existsb (String.eqb parsed) actualParamNames) &&
                          negb (String.eqb parsed "*")) parsedParamNames in
  match checkTypeMismatches variant params with
  | None => None
  | Some typeMismatches =>
      match checkReturnTypeMismatches variant params with
      | None => None
      | Some returnTypeMismatches =>
          Some (mkValidation extraParams typeMismatches returnTypeMismatches)
      end
  end.

End SyntaxChecker.

(* ------------------------------------------------------------------ *)
(** ** Reference notions used in the statements *)

Module Ref.
Import Tokenizer Types.

Definition count_code (c : WarningCode) (l : list MalformationIssue) : nat :=
  length (filter (has_code c) l).

Definition is_tok (t : Token) (ty : TokenType) : bool := TokenType_eqb (type t) ty.

(** Closes minus opens over a token list. *)
Definition closes_minus_opens (l : list Token) : Z :=
  (Z.of_nat (length (filter (fun t => is_tok t CLOSE_BRACE) l))
   - Z.of_nat (length (filter (fun t => is_tok t OPEN_BRACE) l)))%Z.

(** Matching each [}] with the nearest unmatched [{] before it, the closes
    left unmatched are as many as the largest excess of closes over opens
    in a prefix of the list (the empty prefix included). *)
Definition unmatched_closes (l : list Token) : Z :=
  fold_right Z.max 0%Z
    (map (fun k => closes_minus_opens (firstn k l)) (seq 0 (S (length l)))).

(** The opens left unmatched by the same matching. *)
Definition unmatched_opens (l : list Token) : Z :=
  (unmatched_closes l - closes_minus_opens l)%Z.

(** Adjacent [SEMICOLON SEMICOLON] pairs. *)
Fixpoint semicolon_pairs (l : list Token) : nat :=
  match l with
  | a :: ((b :: _) as r) =>
      (if is_tok a SEMICOLON && is_tok b SEMICOLON then 1 else 0) + semicolon_pairs r
  | _ => 0
  end.

Definition starts_with_semicolon (l : list Token) : bool :=
  match l with t :: _ => is_tok t SEMICOLON | [] => false end.

(** A token on which the loop of [checkStructuralIssuesFast] calls
    [addIssue]: a [PARAMETER_NAME] containing [*] or a [TYPE] containing [/]. *)
Definition structural_hit (t : Token) : bool :=
  (is_tok t PARAMETER_NAME && includes_char (value t) 42) ||
  (is_tok t TYPE && includes_char (value t) 47).

(** The name a [PARAMETER_NAME] or [SPREAD] token gives its parameter. *)
Definition param_name_of (t : Token) : string :=
  if is_tok t SPREAD
  then (if startsWith (value t) "..." then drop 3 (value t) else value t)
  else value t.

(** Segments of the declared type string and entries of the actual list,
    trimmed and lowercased. *)
Definition declared_set (parsedTypes : string) : list string :=
  map Checker.lower_trim (split_char ","%char parsedTypes).

Definition actual_set (actualTypes : list string) : list string :=
  map Checker.lower_trim actualTypes.

Definition no_comma (s : string) : Prop := includes_char s 44 = false.

End Ref.

(* ================================================================== *)
(** * Properties *)

(* ------------------------------------------------------------------ *)
(** ** Variants without parentheses *)

Module ParserFacts.
Import Types Parser.

(** C1 (code_bug). The syntax [**.root** : 4D.ZipFolder] is one variant
    with no parenthesis. The token-based [parseSyntax] returns it with an
    empty parameter list but with a malformation holding the single issue
    "Missing opening parenthesis". The claim expects no malformation. *)
Theorem parseSyntax_property_flagged :
  parseSyntax "**.root** : 4D.ZipFolder" =
  Some [mkVariant "**.root** : 4D.ZipFolder" [] None
     (Some (mkInfo true [Literal "Missing opening parenthesis" LEVEL_1]))].
Proof. vm_compute. reflexivity. Qed.

End ParserFacts.

(* ------------------------------------------------------------------ *)
(** ** Concrete runs of the set-based type validator *)

Module TypeValidFacts.
Import Checker.

(** C3 (code_bug). [isTypeValid("Text,Blob,Object", ["Text","Blob","Object"])]
    returns true, as claimed, but [isTypeValid("Text", ["Text","Blob","Object"])]
    also returns true, where the claim and the test "Exact match" expect
    false: the declared set [{text}] is a subset of the actual set, and
    the code checks only that inclusion. [isTypeValid("Text,Blob,Object",
    ["Text"])] returns false. *)
Theorem isTypeValid_scenarios :
  isTypeValid "Text,Blob,Object" ["Text"; "Blob"; "Object"] = true /\
  isTypeValid "Text" ["Text"; "Blob"; "Object"] = true /\
  isTypeValid "Text,Blob,Object" ["Text"] = false.
Proof. vm_compute. repeat split. Qed.

End TypeValidFacts.

(* ------------------------------------------------------------------ *)
(** ** Concrete runs of the parameter checker *)

Module ParamFacts.
Import Tokenizer Types ParameterChecker.

(** C6 (code_bug). The token [ESCAPED_ASTERISK] with text backslash-star,
    as the tokenizer emits it, becomes a synthetic parameter named by the
    token's text (backslash-star), not ["*"]. The same holds through
    [parseSyntax] on the variant [f( \* )]. *)
Theorem escaped_asterisk_parameter_name :
  checkParameters [mkToken ESCAPED_ASTERISK escaped_asterisk_text 0] =
    ([mkParam escaped_asterisk_text "operator" false false], []) /\
  option_map (map Parser.parameters)
      (Parser.parseSyntax ("f( " ++ escaped_asterisk_text ++ " )")) =
    Some [[mkParam escaped_asterisk_text "operator" false false]] /\
  escaped_asterisk_text <> "*".
Proof. vm_compute. repeat split. discriminate. Qed.

(** C2 (counterexample). For [a {], the parameter [a] is followed by an
    [OPEN_BRACE] (neither [SEMICOLON], [CLOSE_BRACE] nor end of stream),
    yet a missing-type issue is emitted for it. *)
Lemma missing_type_before_open_brace :
  snd (checkParameters [mkToken PARAMETER_NAME "a" 0; mkToken OPEN_BRACE "{" 2]) =
    [Coded PARAMETER_MISSING_TYPE (NameArg "a")].
Proof. vm_compute. reflexivity. Qed.

End ParamFacts.

(* ------------------------------------------------------------------ *)
(** ** Preprocessing is not idempotent *)

Module PreprocessFacts.
Import Tokenizer Preprocess.

(** C7 (counterexample). On [**a**] one preprocessing pass gives [*a*]
    and a second pass gives [a]; the two tokenize differently (two
    [OPERATOR] tokens around the name, against the name alone). *)
Lemma preprocess_twice_differs :
  preprocessParameterString "**a**" = "*a*" /\
  preprocessParameterString (preprocessParameterString "**a**") = "a" /\
  tokenize (preprocessParameterString (preprocessParameterString "**a**")) <>
  tokenize (preprocessParameterString "**a**").
Proof. vm_compute. split; [reflexivity | split; [reflexivity | discriminate]]. Qed.

End PreprocessFacts.

(* ------------------------------------------------------------------ *)
(** ** Tokenizer: progress, termination, empty and blank input *)

Module TokenizerFacts.
Import Tokenizer.

Lemma skipIdentifierChars_ge : forall s fuel p, p <= skipIdentifierChars s fuel p.
Proof.
  intros s fuel; induction fuel as [|f IH]; intros p; simpl; [lia|].
  destruct (_ && _); [specialize (IH (S p)); lia | lia].
Qed.

Lemma setPos_input : forall st p, input (setPos st p) = input st.
Proof. reflexivity. Qed.

Lemma addToken_input : forall st ty v p, input (addToken st ty v p) = input st.
Proof. reflexivity. Qed.

Lemma scanIdentifier_input : forall st, input (scanIdentifier st) = input st.
Proof.
  intros st; unfold scanIdentifier.
  destruct (_ && _); [reflexivity|]. destruct (_ <? _); reflexivity.
Qed.

Lemma scanIdentifier_progress : forall st, pos st < pos (scanIdentifier st).
Proof.
  intros st; unfold scanIdentifier.
  destruct (_ && _) eqn:E.
  - simpl. pose proof (skipIdentifierChars_ge (input st) (String.length (input st))
                                              (pos st + 3)). lia.
  - destruct (pos st <? _) eqn:E2; simpl; [apply Nat.ltb_lt in E2; exact E2 | lia].
Qed.

Lemma scanToken_input : forall st, input (scanToken st) = input st.
Proof.
  intros st; unfold scanToken.
  destruct (char_at _ _) as [c|]; [|apply scanIdentifier_input].
  destruct (is_tok_space c); [reflexivity|].
  destruct (_ && _ && _); [reflexivity|].
  destruct (_ && _ && _); [reflexivity|].
  destruct (single_char_token _); [reflexivity | apply scanIdentifier_input].
Qed.

Lemma scanToken_progress : forall st, pos st < pos (scanToken st).
Proof.
  intros st; unfold scanToken.
  destruct (char_at _ _) as [c|]; [|apply scanIdentifier_progress].
  destruct (is_tok_space c); [simpl; lia|].
  destruct (_ && _ && _); [simpl; lia|].
  destruct (_ && _ && _); [simpl; lia|].
  destruct (single_char_token _); [simpl; lia | apply scanIdentifier_progress].
Qed.

Lemma run_done : forall f st, String.length (input st) <= pos st -> run f st = st.
Proof.
  intros [|f] st H; simpl; [reflexivity|].
  destruct (pos st <? _) eqn:E; [apply Nat.ltb_lt in E; lia | reflexivity].
Qed.

Lemma run_enough : forall f st,
  String.length (input st) - pos st <= f ->
  String.length (input st) <= pos (run f st) /\
  (forall f', f <= f' -> run f' st = run f st).
Proof.
  induction f as [|f IH]; intros st H.
  - simpl. split; [lia|]. intros f' _. apply run_done. lia.
  - simpl. destruct (pos st <? _) eqn:E.
    + apply Nat.ltb_lt in E.
      pose proof (scanToken_progress st) as P. pose proof (scanToken_input st) as I.
      destruct (IH (scanToken st)) as [H1 H2]; [rewrite I; lia|].
      split; [rewrite <- I; exact H1|].
      intros [|f'] Hf; [lia|]. simpl. rewrite (proj2 (Nat.ltb_lt _ _) E).
      apply H2. lia.
    + apply Nat.ltb_ge in E. split; [exact E|].
      intros f' _. apply run_done. exact E.
Qed.

Lemma get_in_range : forall s n, n < String.length s -> exists c, String.get n s = Some c.
Proof.
  induction s as [|c s IH]; intros n H; simpl in H; [lia|].
  destruct n as [|n]; simpl; [eauto|]. apply IH. lia.
Qed.

Lemma run_blank : forall f st,
  tokens st = [] ->
  (forall i c, pos st <= i -> String.get i (input st) = Some c -> is_tok_space c = true) ->
  tokens (run f st) = [].
Proof.
  induction f as [|f IH]; intros st Ht Hs; simpl; [exact Ht|].
  destruct (pos st <? _) eqn:E; [|exact Ht].
  apply Nat.ltb_lt in E.
  destruct (String.get (pos st) (input st)) as [c|] eqn:G.
  - assert (Hc : is_tok_space c = true) by (apply (Hs (pos st)); auto).
    assert (Hst : scanToken st = setPos st (S (pos st))).
    { unfold scanToken, char_at. rewrite G, Hc. reflexivity. }
    rewrite Hst. apply IH; [exact Ht|].
    intros i c' Hi Hg. apply (Hs i); [simpl in Hi; lia | exact Hg].
  - exfalso. destruct (get_in_range _ _ E) as [c E']. congruence.
Qed.

(** C9. [tokenize] is total and terminates: every [scanToken] step keeps
    the input and moves the position forward by at least one character
    (an unrecognised character is skipped); from any state the scan loop
    reaches the end of the input within [length input - position] steps,
    after which more iterations change nothing; the empty input and any
    input made only of spaces, tabs, line feeds and carriage returns give
    no token. Totality is the totality of these functions: no path of the
    tokenizer can fail. *)
Theorem tokenize_total :
  (forall st, pos st < String.length (input st) ->
     input (scanToken st) = input st /\ pos st + 1 <= pos (scanToken st)) /\
  (forall f st, String.length (input st) - pos st <= f ->
     String.length (input st) <= pos (run f st) /\
     (forall f', f <= f' -> run f' st = run f st)) /\
  tokenize EmptyString = [] /\
  (forall s, (forall i c, String.get i s = Some c -> is_tok_space c = true) ->
     tokenize s = []).
Proof.
  split; [|split; [|split]].
  - intros st _. split; [apply scanToken_input|].
    pose proof (scanToken_progress st). lia.
  - exact run_enough.
  - reflexivity.
  - intros s Hs. unfold tokenize, tokenize_on. simpl.
    apply run_blank; [reflexivity|]. intros i c _ G. exact (Hs i c G).
Qed.

(** Witness of C9 on the input "a" and on a blank input. *)
Lemma tokenize_total_witness :
  (0 < String.length "a" /\ 1 <= pos (scanToken (mkState "a" 0 [] None))) /\
  tokenize "  " = [].
Proof.
  destruct tokenize_total as [H1 [_ [_ H4]]]. split.
  - split; [simpl; lia|].
    exact (proj2 (H1 (mkState "a" 0 [] None) ltac:(simpl; lia))).
  - apply H4. intros i c G.
    destruct i as [|[|i]]; simpl in G; [injection G as <-; reflexivity
                                       | injection G as <-; reflexivity | discriminate].
Defined.

End TokenizerFacts.

(* ------------------------------------------------------------------ *)
(** ** Type validation: the set comparison *)

Module TypeValidSpec.
Import Checker Ref.

Lemma set_has_In : forall set x, set_has set x = true <-> In x set.
Proof.
  intros set x. unfold set_has. rewrite existsb_exists. split.
  - intros [y [Hy E]]. apply String.eqb_eq in E. subst. exact Hy.
  - intros H. exists x. split; [exact H | apply String.eqb_refl].
Qed.

Lemma In_set_add : forall set x y, In x (set_add set y) <-> In x set \/ x = y.
Proof.
  intros set x y. unfold set_add.
  destruct (set_has set y) eqn:E.
  - apply set_has_In in E. split; [tauto|]. intros [H|H]; [exact H | subst; exact E].
  - rewrite in_app_iff. simpl. split; intros [H|H]; intuition.
Qed.

Lemma In_fold_set : forall (f : string -> string) l set x,
  In x (fold_left (fun set t => set_add set (f t)) l set) <->
  In x set \/ In x (map f l).
Proof.
  intros f l; induction l as [|a l IH]; intros set x; simpl; [tauto|].
  rewrite IH, In_set_add. intuition.
Qed.

(** The set-based [isTypeValid] is the inclusion of the declared set in
    the actual set. *)
Lemma isTypeValid_incl : forall d a,
  isTypeValid d a = true <->
  (forall x, In x (declared_set d) -> In x (actual_set a)).
Proof.
  intros d a. unfold isTypeValid, declared_set, actual_set.
  rewrite forallb_forall. split.
  - intros H x Hx. specialize (H x).
    rewrite In_fold_set in H. rewrite set_has_In, In_fold_set in H.
    destruct (H (or_intror Hx)) as [[]|Hy]. exact Hy.
  - intros H x Hx. rewrite In_fold_set in Hx. rewrite set_has_In, In_fold_set.
    destruct Hx as [[]|Hx]. right. apply H. exact Hx.
Qed.

Lemma split_char_no_sep : forall sep s,
  includes_char s (nat_of_ascii sep) = false -> split_char sep s = [s].
Proof.
  intros sep s; induction s as [|c s IH]; intros H; simpl in *; [reflexivity|].
  apply orb_false_iff in H as [H1 H2].
  destruct (Ascii.eqb c sep) eqn:E.
  - apply Ascii.eqb_eq in E. subst. unfold char_is, code in H1.
    rewrite Nat.eqb_refl in H1. discriminate.
  - rewrite (IH H2). reflexivity.
Qed.

Lemma split_char_app : forall sep s t,
  includes_char s (nat_of_ascii sep) = false ->
  split_char sep (s ++ String sep t) = s :: split_char sep t.
Proof.
  intros sep s t; induction s as [|c s IH]; intros H; simpl in *.
  - rewrite Ascii.eqb_refl. reflexivity.
  - apply orb_false_iff in H as [H1 H2].
    destruct (Ascii.eqb c sep) eqn:E.
    + apply Ascii.eqb_eq in E. subst. unfold char_is, code in H1.
      rewrite Nat.eqb_refl in H1. discriminate.
    + rewrite (IH H2). reflexivity.
Qed.

Lemma split_concat : forall segs,
  segs <> [] -> Forall no_comma segs ->
  split_char ","%char (String.concat "," segs) = segs.
Proof.
  induction segs as [|s segs IH]; intros Hne Hf; [congruence|].
  inversion Hf as [|? ? Hs Hr]; subst.
  destruct segs as [|s' segs].
  - simpl. apply split_char_no_sep. exact Hs.
  - change (String.concat "," (s :: s' :: segs))
      with (s ++ String ","%char (String.concat "," (s' :: segs))).
    rewrite split_char_app by exact Hs.
    rewrite IH; [reflexivity | discriminate | exact Hr].
Qed.

Lemma isTypeValid_perm_actual : forall d a a',
  Permutation a a' -> isTypeValid d a = isTypeValid d a'.
Proof.
  intros d a a' P.
  destruct (isTypeValid d a) eqn:E1, (isTypeValid d a') eqn:E2; try reflexivity.
  - exfalso. rewrite isTypeValid_incl in E1.
    assert (isTypeValid d a' = true) as E; [|congruence].
    apply isTypeValid_incl. intros x Hx. unfold actual_set.
    apply (Permutation_in _ (Permutation_map _ P)). apply E1. exact Hx.
  - exfalso. rewrite isTypeValid_incl in E2.
    assert (isTypeValid d a = true) as E; [|congruence].
    apply isTypeValid_incl. intros x Hx. unfold actual_set.
    apply (Permutation_in _ (Permutation_map _ (Permutation_sym P))).
    apply E2. exact Hx.
Qed.

Lemma isTypeValid_perm_declared : forall segs segs' a,
  Permutation segs segs' -> segs <> [] -> Forall no_comma segs ->
  isTypeValid (String.concat "," segs) a = isTypeValid (String.concat "," segs') a.
Proof.
  intros segs segs' a P Hne Hf.
  assert (Hne' : segs' <> []).
  { intros ->. apply Permutation_sym, Permutation_nil in P. contradiction. }
  assert (Hf' : Forall no_comma segs').
  { apply Forall_forall. intros x Hx. rewrite Forall_forall in Hf.
    apply Hf. apply (Permutation_in _ (Permutation_sym P)). exact Hx. }
  assert (D : forall l, l <> [] -> Forall no_comma l ->
            declared_set (String.concat "," l) = map lower_trim l).
  { intros l H1 H2. unfold declared_set. rewrite split_concat; auto. }
  destruct (isTypeValid (String.concat "," segs) a) eqn:E1,
           (isTypeValid (String.concat "," segs') a) eqn:E2; try reflexivity.
  - exfalso. rewrite isTypeValid_incl in E1.
    assert (isTypeValid (String.concat "," segs') a = true) as E; [|congruence].
    apply isTypeValid_incl. intros x Hx. apply E1.
    rewrite D in * by assumption.
    apply (Permutation_in _ (Permutation_map _ (Permutation_sym P))). exact Hx.
  - exfalso. rewrite isTypeValid_incl in E2.
    assert (isTypeValid (String.concat "," segs) a = true) as E; [|congruence].
    apply isTypeValid_incl. intros x Hx. apply E2.
    rewrite D in * by assumption.
    apply (Permutation_in _ (Permutation_map _ P)). exact Hx.
Qed.

(** C4. The set-based [isTypeValid(parsedTypes, actualTypes)] returns true
    exactly when every comma-separated segment of [parsedTypes], trimmed
    and lowercased, is among the trimmed, lowercased entries of
    [actualTypes]; reordering [actualTypes], or reordering the
    comma-free segments that make up [parsedTypes], leaves the result
    unchanged. *)
Theorem isTypeValid_subset_order :
  forall d a,
    (isTypeValid d a = true <->
     (forall x, In x (declared_set d) -> In x (actual_set a))) /\
    (forall a', Permutation a a' -> isTypeValid d a = isTypeValid d a') /\
    (forall segs segs', Permutation segs segs' -> segs <> [] ->
       Forall no_comma segs ->
       isTypeValid (String.concat "," segs) a = isTypeValid (String.concat "," segs') a).
Proof.
  intros d a. split; [apply isTypeValid_incl|split].
  - intros a' P. apply isTypeValid_perm_actual. exact P.
  - intros segs segs' P H1 H2. apply isTypeValid_perm_declared; assumption.
Qed.

(** Witness of C4: ["Blob,Text"] against a reordered actual list, and the
    two orders of the declared segments. *)
Lemma isTypeValid_subset_order_witness :
  isTypeValid "Blob,Text" ["Text"; "Blob"] = isTypeValid "Blob,Text" ["Blob"; "Text"] /\
  isTypeValid (String.concat "," ["Blob"; "Text"]) ["Text"] =
  isTypeValid (String.concat "," ["Text"; "Blob"]) ["Text"].
Proof.
  split.
  - apply (proj2 (isTypeValid_subset_order "Blob,Text" ["Text"; "Blob"])).
    apply perm_swap.
  - apply (proj2 (proj2 (isTypeValid_subset_order EmptyString ["Text"])));
      [apply perm_swap | discriminate | repeat constructor].
Defined.

(** C5 (code_bug). The single-type [isTypeValid(parsedType, actualType)]
    returns true whenever [parsedType] lowercased and trimmed is [any], as
    claimed. The set-based form has no case for [any]: it returns true
    exactly when the declared set is included in the actual set, so
    [isTypeValid("any", ["Text"])] and [isTypeValid("Text", ["any"])] both
    return false, where the claim and the test "should validate any type"
    expect true. *)
Theorem isTypeValid_any :
  (forall p a, trim (toLowerCase p) = "any" -> isTypeValid_single p a = true) /\
  (forall d a, isTypeValid d a = true <->
     (forall x, In x (declared_set d) -> In x (actual_set a))) /\
  isTypeValid "any" ["Text"] = false /\ isTypeValid "Text" ["any"] = false.
Proof.
  split; [|split].
  - intros p a H. unfold isTypeValid_single. rewrite H. reflexivity.
  - exact isTypeValid_incl.
  - vm_compute. split; reflexivity.
Qed.

(** Witness of C5: [" ANY "] against ["Text"] in the single-type form, and
    ["any"] against ["any"] in the set form. *)
Lemma isTypeValid_any_witness :
  isTypeValid_single " ANY " "Text" = true /\ isTypeValid "any" ["any"] = true.
Proof.
  split.
  - apply (proj1 isTypeValid_any). vm_compute. reflexivity.
  - apply (proj1 (proj2 isTypeValid_any)). intros x Hx. exact Hx.
Defined.

End TypeValidSpec.

(* ------------------------------------------------------------------ *)
(** ** Malformation checker: counting issues by code *)

Module MalformationFacts.
Import Tokenizer Types MalformationChecker Ref.
Local Open Scope list_scope.

Definition filt (c : WarningCode) (st : State) : list MalformationIssue :=
  filter (has_code c) (issues st).

Lemma filt_addIssue : forall c st c' a,
  filt c (addIssue st c' a) =
  filt c st ++ (if WarningCode_eqb c c' then [Coded c' a] else []).
Proof.
  intros. unfold filt, addIssue. simpl. rewrite filter_app. simpl.
  destruct (WarningCode_eqb c c'); reflexivity.
Qed.

(** Issue-per-step bookkeeping for the loops of the checker. *)
Lemma fold_filt : forall {A} c (f : State -> A -> State) (h : A -> list MalformationIssue),
  (forall st x, filt c (f st x) = filt c st ++ h x) ->
  forall l st, filt c (fold_left f l st) = filt c st ++ concat (map h l).
Proof.
  intros A c f h H l; induction l as [|x l IH]; intros st; simpl.
  - rewrite app_nil_r. reflexivity.
  - rewrite IH, H, app_assoc. reflexivity.
Qed.

Ltac crunch :=
  repeat first
    [ rewrite filt_addIssue; cbn [WarningCode_eqb]
    | match goal with
      | |- context [if ?b then _ else _] => destruct b
      | |- context [match ?o with Some _ => _ | None => _ end] => destruct o
      end ];
  simpl; rewrite ?app_nil_r, <- ?app_assoc; reflexivity.

Definition code_is (c c' : WarningCode) (a : IssueArg) : list MalformationIssue :=
  if WarningCode_eqb c c' then [Coded c' a] else [].

Lemma empty_fast_filt : forall c st toks,
  filt c (checkEmptyParametersFast st toks) =
  filt c st ++ concat (map (fun i =>
    if is_type (nth_error toks i) SEMICOLON then
      (if is_type (nth_error toks (S i)) SEMICOLON
       then code_is c EMPTY_PARAMETER_DOUBLE_SEMICOLON NoArg else []) ++
      (match prev toks i with
       | None => code_is c EMPTY_PARAMETER_AT_START NoArg | Some _ => [] end)
    else []) (seq 0 (length toks))).
Proof. intros. apply fold_filt. intros st' i. unfold code_is. crunch. Qed.

Lemma empty_filt : forall c st toks,
  filt c (checkEmptyParameters st toks) =
  filt c st ++ concat (map (fun i =>
    (if Nat.eqb i 0 && is_type (nth_error toks i) SEMICOLON
     then code_is c EMPTY_PARAMETER_AT_START NoArg else []) ++
    (if is_type (nth_error toks i) SEMICOLON && is_type (nth_error toks (S i)) SEMICOLON
     then code_is c EMPTY_PARAMETER_DOUBLE_SEMICOLON NoArg else []))
    (seq 0 (length toks))).
Proof. intros. apply fold_filt. intros st' i. unfold code_is. crunch. Qed.

(** Codes the remaining checks can add. *)
Definition other_codes (c : WarningCode) : bool :=
  match c with
  | UNEXPECTED_COLON_NO_PARAM | DOUBLE_COLON | UNEXPECTED_SEMICOLON_AFTER_COLON
  | UNEXPECTED_CLOSING_BRACE_AFTER_COLON | PARAMETER_EMPTY_TYPE_AFTER_COLON => true
  | _ => false
  end.

Lemma fold_filt_keep : forall {A} c (f : State -> A -> State),
  (forall st x, filt c (f st x) = filt c st) ->
  forall l st, filt c (fold_left f l st) = filt c st.
Proof.
  intros A c f H l st. rewrite (fold_filt c f (fun _ => [])).
  - induction l; simpl; rewrite ?app_nil_r; auto.
  - intros. rewrite H, app_nil_r. reflexivity.
Qed.

Ltac keep c Hc :=
  apply fold_filt_keep; intros ? ?;
  destruct c; try discriminate Hc; crunch.

Lemma unexpected_fast_keep : forall c st toks, other_codes c = false ->
  filt c (checkUnexpectedTokensFast st toks) = filt c st.
Proof. intros c st toks Hc. unfold checkUnexpectedTokensFast. keep c Hc. Qed.

Lemma unexpected_keep : forall c st toks, other_codes c = false ->
  filt c (checkUnexpectedTokens st toks) = filt c st.
Proof. intros c st toks Hc. unfold checkUnexpectedTokens. keep c Hc. Qed.

(** The token loop of [checkStructuralIssuesFast] pushes nothing: it
    throws at the first token it would report, and passes the state on
    otherwise. *)
Lemma structural_fold : forall toks st,
  fold_left structural_step toks (Some st) =
  if existsb structural_hit toks then None else Some st.
Proof.
  assert (N : forall toks, fold_left structural_step toks None = None).
  { induction toks; [reflexivity|exact IHtoks]. }
  induction toks as [|t r IH]; intros st; [reflexivity|].
  cbn [fold_left existsb]. unfold structural_step at 2, structural_hit, is_tok.
  destruct (TokenType_eqb (type t) PARAMETER_NAME && includes_char (value t) 42);
    cbn [orb]; [apply N|].
  destruct (TokenType_eqb (type t) TYPE && includes_char (value t) 47);
    cbn [orb]; [apply N | apply IH].
Qed.

Lemma empty_fast_brace : forall c st toks,
  c = EXTRA_CLOSING_BRACE \/ c = UNCLOSED_OPTIONAL_BLOCK ->
  filt c (checkEmptyParametersFast st toks) = filt c st.
Proof.
  intros c st toks Hc. unfold checkEmptyParametersFast.
  apply fold_filt_keep; intros ? ?; destruct Hc; subst; crunch.
Qed.

Lemma empty_brace : forall c st toks,
  c = EXTRA_CLOSING_BRACE \/ c = UNCLOSED_OPTIONAL_BLOCK ->
  filt c (checkEmptyParameters st toks) = filt c st.
Proof.
  intros c st toks Hc. unfold checkEmptyParameters.
  apply fold_filt_keep; intros ? ?; destruct Hc; subst; crunch.
Qed.

Lemma brace_keep : forall c st toks,
  c = EMPTY_PARAMETER_DOUBLE_SEMICOLON \/ c = EMPTY_PARAMETER_AT_START ->
  filt c (checkBraceBalanceFast st toks) = filt c st.
Proof.
  intros c st toks Hc.
  assert (G : forall l st d, filt c (fst (fold_left brace_step l (st, d))) = filt c st).
  { induction l as [|t l IH]; intros st' d; [reflexivity|].
    simpl. destruct (type t); try apply IH.
    destruct (d - 1 <? 0)%Z; rewrite IH; [|reflexivity].
    destruct Hc; subst; crunch. }
  unfold checkBraceBalanceFast.
  pose proof (G toks st 0%Z) as G0.
  destruct (fold_left brace_step toks (st, 0%Z)) as [st' d].
  simpl in G0. destruct (0 <? d)%Z; [|exact G0].
  rewrite filt_addIssue, G0. destruct Hc; subst; simpl; apply app_nil_r.
Qed.

Lemma fold_max_nonneg : forall l, (0 <= fold_right Z.max 0 l)%Z.
Proof. induction l as [|x l IH]; simpl; lia. Qed.

Definition delta (t : Token) : Z :=
  ((if is_tok t CLOSE_BRACE then 1 else 0) - (if is_tok t OPEN_BRACE then 1 else 0))%Z.

Lemma cmo_cons : forall t r,
  closes_minus_opens (t :: r) = (delta t + closes_minus_opens r)%Z.
Proof.
  intros t r. unfold closes_minus_opens, delta. cbn [filter].
  destruct (is_tok t CLOSE_BRACE), (is_tok t OPEN_BRACE); cbn [length]; lia.
Qed.

Lemma max_shift : forall (G : nat -> Z) c L,
  Z.max 0 (Z.max c (fold_right Z.max 0 (map (fun j => c + G j) L)))%Z =
  Z.max 0 (c + fold_right Z.max 0 (map G L))%Z.
Proof.
  intros G c L; induction L as [|y L IH]; simpl; [lia|].
  pose proof (fold_max_nonneg (map (fun j => c + G j) L)%Z).
  pose proof (fold_max_nonneg (map G L)). lia.
Qed.

Lemma unmatched_closes_nonneg : forall l, (0 <= unmatched_closes l)%Z.
Proof. intros l. apply fold_max_nonneg. Qed.

Lemma unmatched_closes_nil : unmatched_closes [] = 0%Z.
Proof. reflexivity. Qed.

Lemma unmatched_closes_cons : forall t r,
  unmatched_closes (t :: r) = Z.max 0 (delta t + unmatched_closes r)%Z.
Proof.
  intros t r. unfold unmatched_closes.
  change (seq 0 (S (length (t :: r)))) with (0 :: seq 1 (S (length r))).
  rewrite <- seq_shift, map_cons, map_map.
  change (firstn 0 (t :: r)) with (@nil Token).
  replace (map (fun x => closes_minus_opens (firstn (S x) (t :: r))) (seq 0 (S (length r))))
    with (map (fun j => delta t + closes_minus_opens (firstn j r))%Z (seq 0 (S (length r)))).
  2:{ apply map_ext. intros j. simpl. rewrite cmo_cons. reflexivity. }
  simpl seq. rewrite !map_cons. change (firstn 0 r) with (@nil Token).
  change (closes_minus_opens []) with 0%Z.
  simpl fold_right.
  pose proof (max_shift (fun j => closes_minus_opens (firstn j r)) (delta t)
                        (seq 1 (length r))) as K.
  pose proof (fold_max_nonneg (map (fun j => closes_minus_opens (firstn j r))
                                   (seq 1 (length r)))).
  cbv beta in K. rewrite Z.add_0_r. lia.
Qed.

Lemma state_eta : forall st : State, mkState (issues st) = st.
Proof. intros []; reflexivity. Qed.

Ltac close_brace_pair :=
  match goal with
  | |- (mkState (_ ++ repeat _ (Z.to_nat ?x)), ?a) =
       (mkState (_ ++ repeat _ (Z.to_nat ?y)), ?b) =>
      assert (y = x) by lia; assert (b = a) by lia; congruence
  end.

Lemma brace_fold : forall toks st d, (0 <= d)%Z ->
  fold_left brace_step toks (st, d) =
  (mkState (issues st ++ repeat (Coded EXTRA_CLOSING_BRACE NoArg)
                                (Z.to_nat (Z.max 0 (unmatched_closes toks - d)))),
   (d - closes_minus_opens toks + Z.max 0 (unmatched_closes toks - d))%Z).
Proof.
  induction toks as [|t r IH]; intros st d Hd.
  - cbn [fold_left]. rewrite unmatched_closes_nil.
    replace (Z.max 0 (0 - d)) with 0%Z by lia. simpl.
    rewrite app_nil_r, state_eta. f_equal. unfold closes_minus_opens. simpl. lia.
  - pose proof (unmatched_closes_nonneg r) as U0.
    rewrite unmatched_closes_cons, cmo_cons. unfold delta, is_tok.
    cbn [fold_left brace_step]. destruct (type t) eqn:T; cbn [TokenType_eqb];
      try (rewrite IH by exact Hd; close_brace_pair).
    + rewrite IH by lia. close_brace_pair.
    + destruct (d - 1 <? 0)%Z eqn:E.
      * apply Z.ltb_lt in E. rewrite IH by lia. cbn [issues addIssue].
        replace (Z.to_nat (Z.max 0 (Z.max 0 (1 - 0 + unmatched_closes r) - d)))
          with (S (Z.to_nat (Z.max 0 (unmatched_closes r - 0)))) by lia.
        cbn [repeat]. rewrite <- app_assoc. f_equal. lia.
      * apply Z.ltb_ge in E. rewrite IH by lia. close_brace_pair.
Qed.

Lemma filter_repeat : forall (p : MalformationIssue -> bool) x n,
  filter p (repeat x n) = if p x then repeat x n else [].
Proof.
  intros p x n; induction n as [|n IH]; simpl; [destruct (p x); reflexivity|].
  rewrite IH. destruct (p x); reflexivity.
Qed.

Lemma length_concat_map : forall {A B} (h : A -> list B) l,
  length (concat (map h l)) = list_sum (map (fun x => length (h x)) l).
Proof.
  intros A B h l; induction l as [|x l IH]; simpl; [reflexivity|].
  rewrite length_app, IH. reflexivity.
Qed.

Lemma checkMalformations_unfold : forall toks,
  checkMalformations toks =
  if existsb structural_hit toks then None else
  Some (issues (checkUnexpectedTokens
    (checkEmptyParameters
      (checkUnexpectedTokensFast
        (checkEmptyParametersFast
          (checkBraceBalanceFast (mkState []) toks) toks) toks) toks) toks)).
Proof.
  intros toks. unfold checkMalformations, checkMalformations_on, checkStructuralIssuesFast.
  rewrite structural_fold. destruct (existsb structural_hit toks); reflexivity.
Qed.

(** [checkMalformations] returns exactly when no token is a [PARAMETER_NAME]
    containing [*] or a [TYPE] containing [/]. *)
Lemma checkMalformations_returns : forall toks,
  checkMalformations toks = None <-> existsb structural_hit toks = true.
Proof.
  intros toks. rewrite checkMalformations_unfold.
  destruct (existsb structural_hit toks); split; congruence.
Qed.

Lemma nth_error_in_range : forall {A} (l : list A) j,
  j < length l -> exists t, nth_error l j = Some t.
Proof.
  intros A l j H. destruct (nth_error l j) as [t|] eqn:E; [eauto|].
  apply nth_error_None in E. lia.
Qed.

Lemma sum_ext : forall (f g : nat -> nat) l,
  (forall x, f x = g x) -> list_sum (map f l) = list_sum (map g l).
Proof. intros f g l H. rewrite (map_ext f g H). reflexivity. Qed.

Lemma sum_plus : forall (f g : nat -> nat) l,
  list_sum (map f l) + list_sum (map g l) = list_sum (map (fun x => f x + g x) l).
Proof. intros f g l. induction l as [|x l IH]; simpl; [reflexivity|]. lia. Qed.

Lemma pairs_sum : forall toks,
  list_sum (map (fun i =>
    if is_type (nth_error toks i) SEMICOLON && is_type (nth_error toks (S i)) SEMICOLON
    then 1 else 0) (seq 0 (length toks))) = semicolon_pairs toks.
Proof.
  induction toks as [|a r IH]; [reflexivity|].
  cbn [length]. rewrite <- (Nat.add_0_l (length r)) at 1.
  change (seq 0 (S (0 + length r))) with (0 :: seq 1 (length r)).
  rewrite <- seq_shift, map_cons, map_map.
  change (list_sum (?x :: ?l)) with (x + list_sum l).
  rewrite (map_ext _ (fun i => if is_type (nth_error r i) SEMICOLON
                      && is_type (nth_error r (S i)) SEMICOLON then 1 else 0))
    by (intros; reflexivity).
  rewrite IH. destruct r as [|b r']; cbn;
    [destruct (TokenType_eqb (type a) SEMICOLON) |]; reflexivity.
Qed.

Lemma start_sum : forall toks,
  list_sum (map (fun i =>
    if is_type (nth_error toks i) SEMICOLON
    then match prev toks i with None => 1 | Some _ => 0 end else 0)
    (seq 0 (length toks))) =
  (if starts_with_semicolon toks then 1 else 0) /\
  list_sum (map (fun i =>
    if Nat.eqb i 0 && is_type (nth_error toks i) SEMICOLON then 1 else 0)
    (seq 0 (length toks))) =
  (if starts_with_semicolon toks then 1 else 0).
Proof.
  intros [|a r]; [split; reflexivity|].
  cbn [length]. rewrite <- (Nat.add_0_l (length r)).
  change (seq 0 (S (0 + length r))) with (0 :: seq 1 (length r)).
  rewrite <- seq_shift, !map_cons, !map_map.
  change (list_sum (?x :: ?l)) with (x + list_sum l).
  rewrite (map_ext_in _ (fun _ => 0)).
  2:{ intros j Hj. apply in_seq in Hj.
      destruct (nth_error_in_range (a :: r) j ltac:(simpl; lia)) as [t Ht].
      cbn [prev]. rewrite Ht. destruct (is_type _ _); reflexivity. }
  cbn [Nat.eqb andb].
  assert (Z0 : forall l : list nat, list_sum (map (fun _ => 0) l) = 0).
  { induction l; simpl; auto. }
  rewrite !Z0, !Nat.add_0_r. cbn. unfold is_tok. destruct (TokenType_eqb (type a) SEMICOLON); split; reflexivity.
Qed.

Lemma brace_counts : forall toks l, checkMalformations toks = Some l ->
  filter (has_code UNCLOSED_OPTIONAL_BLOCK) l =
    (if (0 <? unmatched_opens toks)%Z
     then [Coded UNCLOSED_OPTIONAL_BLOCK (CountArg (unmatched_opens toks))] else []) /\
  count_code EXTRA_CLOSING_BRACE l = Z.to_nat (unmatched_closes toks).
Proof.
  intros toks l E. rewrite checkMalformations_unfold in E.
  destruct (existsb structural_hit toks); [discriminate|]. injection E as <-.
  unfold count_code.
  pose proof (unmatched_closes_nonneg toks) as U0.
  assert (K : forall c, c = EXTRA_CLOSING_BRACE \/ c = UNCLOSED_OPTIONAL_BLOCK ->
    filter (has_code c) (issues (checkUnexpectedTokens
      (checkEmptyParameters
        (checkUnexpectedTokensFast (checkEmptyParametersFast
          (checkBraceBalanceFast (mkState []) toks) toks) toks) toks) toks)) =
    filt c (checkBraceBalanceFast (mkState []) toks)).
  { intros c Hc. change (filter (has_code c) (issues ?x)) with (filt c x).
    assert (Hoc : other_codes c = false) by (destruct Hc; subst; reflexivity).
    rewrite unexpected_keep, empty_brace, unexpected_fast_keep, empty_fast_brace
      by assumption.
    reflexivity. }
  rewrite !K by auto.
  unfold checkBraceBalanceFast. rewrite brace_fold by lia.
  replace (0 - closes_minus_opens toks + Z.max 0 (unmatched_closes toks - 0))%Z
    with (unmatched_opens toks) by (unfold unmatched_opens; lia).
  replace (Z.max 0 (unmatched_closes toks - 0)) with (unmatched_closes toks) by lia.
  destruct (0 <? unmatched_opens toks)%Z; split; unfold filt;
    cbn [issues addIssue app]; rewrite ?filter_app, filter_repeat; cbn;
    rewrite ?length_app, ?repeat_length; cbn; rewrite ?Nat.add_0_r; reflexivity.
Qed.

(** C8 (code_bug). Whenever [checkMalformations] returns a list, it reports
    the brace balance with the greedy matching of [{] and [}]: its
    [UNCLOSED_OPTIONAL_BLOCK] issues are exactly one issue carrying the
    number of unmatched opens when there is at least one, and none
    otherwise, and it holds exactly as many [EXTRA_CLOSING_BRACE] issues as
    there are unmatched closes. But it does not return for every token
    list: it throws exactly when a [PARAMETER_NAME] token contains [*] or a
    [TYPE] token contains [/], so on the tokens of [{a : Text/Blob] it
    reports no unclosed block at all. *)
Theorem brace_counting :
  (forall toks l, checkMalformations toks = Some l ->
     filter (has_code UNCLOSED_OPTIONAL_BLOCK) l =
       (if (0 <? unmatched_opens toks)%Z
        then [Coded UNCLOSED_OPTIONAL_BLOCK (CountArg (unmatched_opens toks))] else []) /\
     count_code EXTRA_CLOSING_BRACE l = Z.to_nat (unmatched_closes toks)) /\
  (forall toks, checkMalformations toks = None <-> existsb structural_hit toks = true) /\
  unmatched_opens (tokenize "{a : Text/Blob") = 1%Z /\
  checkMalformations (tokenize "{a : Text/Blob") = None.
Proof.
  split; [exact brace_counts|]. split; [exact checkMalformations_returns|].
  vm_compute. split; reflexivity.
Qed.

(** Witness of C8 on the tokens of [{a : Text} }]: one extra close and no
    unclosed block. *)
Lemma brace_counting_witness :
  checkMalformations (tokenize "{a : Text} }") = Some [Coded EXTRA_CLOSING_BRACE NoArg] /\
  (filter (has_code UNCLOSED_OPTIONAL_BLOCK) [Coded EXTRA_CLOSING_BRACE NoArg] =
     (if (0 <? unmatched_opens (tokenize "{a : Text} }"))%Z
      then [Coded UNCLOSED_OPTIONAL_BLOCK
              (CountArg (unmatched_opens (tokenize "{a : Text} }")))] else []) /\
   count_code EXTRA_CLOSING_BRACE [Coded EXTRA_CLOSING_BRACE NoArg] =
     Z.to_nat (unmatched_closes (tokenize "{a : Text} }"))).
Proof.
  assert (E : checkMalformations (tokenize "{a : Text} }") =
              Some [Coded EXTRA_CLOSING_BRACE NoArg]) by (vm_compute; reflexivity).
  exact (conj E (proj1 brace_counting _ _ E)).
Defined.

Lemma empty_counts : forall toks l, checkMalformations toks = Some l ->
  count_code EMPTY_PARAMETER_DOUBLE_SEMICOLON l = 2 * semicolon_pairs toks /\
  count_code EMPTY_PARAMETER_AT_START l = (if starts_with_semicolon toks then 2 else 0).
Proof.
  intros toks l E. rewrite checkMalformations_unfold in E.
  destruct (existsb structural_hit toks); [discriminate|]. injection E as <-.
  unfold count_code.
  change (filter (has_code ?c) (issues ?x)) with (filt c x).
  rewrite !unexpected_keep, !empty_filt, !unexpected_fast_keep,
          !empty_fast_filt, !brace_keep by (auto || reflexivity).
  cbn [filt issues filter app]. rewrite !length_app, !length_concat_map.
  unfold code_is; cbn [WarningCode_eqb].
  destruct (start_sum toks) as [S1 S2].
  rewrite !sum_plus.
  split.
  - erewrite (sum_ext _ (fun i =>
        (if is_type (nth_error toks i) SEMICOLON && is_type (nth_error toks (S i)) SEMICOLON
         then 1 else 0) +
        (if is_type (nth_error toks i) SEMICOLON && is_type (nth_error toks (S i)) SEMICOLON
         then 1 else 0))).
    2:{ intros i. destruct (is_type (nth_error toks i) SEMICOLON),
          (is_type (nth_error toks (S i)) SEMICOLON), (prev toks i), (Nat.eqb i 0);
          reflexivity. }
    rewrite <- sum_plus, pairs_sum. lia.
  - erewrite (sum_ext _ (fun i =>
        (if is_type (nth_error toks i) SEMICOLON
         then match prev toks i with None => 1 | Some _ => 0 end else 0) +
        (if Nat.eqb i 0 && is_type (nth_error toks i) SEMICOLON then 1 else 0))).
    2:{ intros i. destruct (is_type (nth_error toks i) SEMICOLON),
          (is_type (nth_error toks (S i)) SEMICOLON), (prev toks i), (Nat.eqb i 0);
          reflexivity. }
    rewrite <- sum_plus, S1, S2. destruct (starts_with_semicolon toks); reflexivity.
Qed.


(** C10 (code_bug). Whenever [checkMalformations] returns a list, the
    empty-parameter scan has run twice (in [checkEmptyParametersFast] and
    again in [checkStructuralIssuesFast]): the list holds exactly two
    [EMPTY_PARAMETER_DOUBLE_SEMICOLON] issues per adjacent
    [SEMICOLON SEMICOLON] pair, and exactly two [EMPTY_PARAMETER_AT_START]
    issues when the first token is a [SEMICOLON] (none otherwise). But it
    does not return on a token list with a [TYPE] token containing [/]
    (or a [PARAMETER_NAME] containing [*]): on the tokens of
    [;a : Text/Blob;;] it throws and reports neither. *)
Theorem empty_parameter_reported_twice :
  (forall toks l, checkMalformations toks = Some l ->
     count_code EMPTY_PARAMETER_DOUBLE_SEMICOLON l = 2 * semicolon_pairs toks /\
     count_code EMPTY_PARAMETER_AT_START l =
       (if starts_with_semicolon toks then 2 else 0)) /\
  semicolon_pairs (tokenize ";a : Text/Blob;;") = 1 /\
  starts_with_semicolon (tokenize ";a : Text/Blob;;") = true /\
  checkMalformations (tokenize ";a : Text/Blob;;") = None.
Proof.
  split; [exact empty_counts|]. vm_compute. repeat split.
Qed.

(** Witness of C10 on the tokens of [;a : Text;;]. *)
Lemma empty_parameter_reported_twice_witness :
  let l := [Coded EMPTY_PARAMETER_AT_START NoArg; Coded EMPTY_PARAMETER_DOUBLE_SEMICOLON NoArg;
            Coded EMPTY_PARAMETER_AT_START NoArg; Coded EMPTY_PARAMETER_DOUBLE_SEMICOLON NoArg] in
  checkMalformations (tokenize ";a : Text;;") = Some l /\
  (count_code EMPTY_PARAMETER_DOUBLE_SEMICOLON l =
     2 * semicolon_pairs (tokenize ";a : Text;;") /\
   count_code EMPTY_PARAMETER_AT_START l =
     (if starts_with_semicolon (tokenize ";a : Text;;") then 2 else 0)).
Proof.
  intros l.
  assert (E : checkMalformations (tokenize ";a : Text;;") = Some l) by (vm_compute; reflexivity).
  exact (conj E (proj1 empty_parameter_reported_twice _ _ E)).
Defined.

End MalformationFacts.

(* ------------------------------------------------------------------ *)
(** ** Missing-type issues of [checkParameters] *)

Module ParamSpec.
Import Tokenizer Types ParameterChecker Ref.
Local Open Scope list_scope.

(** The issues the loop body adds at index [i]. *)
Definition added (toks : list Token) (i : nat) : list MalformationIssue :=
  match nth_error toks i with
  | Some t =>
      match type t with
      | PARAMETER_NAME | SPREAD =>
          ParameterChecker.issues
            (missing_type_check (ParameterChecker.mkState []) toks i (param_name_of t))
      | _ => []
      end
  | None => []
  end.

Lemma missing_type_check_issues : forall st toks i nm,
  ParameterChecker.issues (missing_type_check st toks i nm) =
  ParameterChecker.issues st ++
    ParameterChecker.issues (missing_type_check (ParameterChecker.mkState []) toks i nm).
Proof.
  intros st toks i nm. unfold missing_type_check.
  destruct (nth_error toks (S i)) as [nt|]; [|symmetry; apply app_nil_r].
  destruct (negb _); [|symmetry; apply app_nil_r].
  destruct (_ || _); [reflexivity|symmetry; apply app_nil_r].
Qed.

Lemma step_issues : forall toks l i,
  ParameterChecker.issues (checker (step toks l i)) =
  ParameterChecker.issues (checker l) ++ added toks i.
Proof.
  intros toks l i. unfold step, added.
  destruct (nth_error toks i) as [t|]; [|symmetry; apply app_nil_r].
  unfold param_name_of, is_tok.
  destruct (type t); cbn [checker TokenType_eqb];
    try (symmetry; apply app_nil_r);
    try (destruct (currentParam l); try destruct (is_type _ _);
         try destruct (is_nonempty _); cbn [checker];
         symmetry; apply app_nil_r);
    apply missing_type_check_issues.
Qed.

Lemma fold_issues : forall toks js l,
  ParameterChecker.issues (checker (fold_left (step toks) js l)) =
  ParameterChecker.issues (checker l) ++ concat (map (added toks) js).
Proof.
  intros toks js. induction js as [|j js IH]; intros l; cbn [fold_left map concat].
  - symmetry; apply app_nil_r.
  - rewrite IH, step_issues, app_assoc. reflexivity.
Qed.

Lemma nth_error_lt : forall (toks : list Token) n t,
  nth_error toks n = Some t -> n < length toks.
Proof.
  intros toks n t H. apply nth_error_Some. rewrite H. discriminate.
Qed.

(** C2 (amended). Up to the last token, whose own contribution is left
    open, the issues of [checkParameters] are the concatenation, index by
    index, of one [PARAMETER_MISSING_TYPE] issue (named as the parameter)
    for each [PARAMETER_NAME] or [SPREAD] token whose next token is a
    [SEMICOLON], an [OPEN_BRACE] or a [CLOSE_BRACE], and nothing for any
    other token that has a successor. *)
Theorem missing_type_issues : forall toks, exists g : nat -> list MalformationIssue,
  snd (checkParameters toks) = concat (map g (seq 0 (length toks))) /\
  forall i t nt, nth_error toks i = Some t -> nth_error toks (S i) = Some nt ->
    g i = if (is_tok t PARAMETER_NAME || is_tok t SPREAD)
             && (is_tok nt SEMICOLON || is_tok nt OPEN_BRACE || is_tok nt CLOSE_BRACE)
          then [Coded PARAMETER_MISSING_TYPE (NameArg (param_name_of t))] else [].
Proof.
  intros toks. exists (added toks). split.
  - unfold checkParameters, checkParameters_on, buildParametersFast. cbn [snd].
    rewrite fold_issues. reflexivity.
  - intros i t nt Ht Hnt. unfold added. rewrite Ht.
    pose proof (nth_error_lt toks (S i) nt Hnt) as L.
    assert (E : Nat.eqb i (length toks - 1) = false) by (apply Nat.eqb_neq; lia).
    unfold missing_type_check. rewrite Hnt, E. unfold is_tok.
    destruct (type t), (type nt); reflexivity.
Qed.

Definition example_toks : list Token :=
  [mkToken PARAMETER_NAME "a" 0; mkToken SEMICOLON ";" 1;
   mkToken PARAMETER_NAME "b" 3; mkToken COLON ":" 4; mkToken TYPE "Text" 6].

Lemma missing_type_issues_witness : exists g : nat -> list MalformationIssue,
  snd (checkParameters example_toks) = concat (map g (seq 0 5)) /\
  g 0 = [Coded PARAMETER_MISSING_TYPE (NameArg "a")] /\ g 2 = [].
Proof.
  destruct (missing_type_issues example_toks) as [g [E H]].
  exists g. split; [exact E|]. split.
  - exact (H 0 _ _ eq_refl eq_refl).
  - exact (H 2 _ _ eq_refl eq_refl).
Defined.

End ParamSpec.

(* ------------------------------------------------------------------ *)
(** ** Repeated calls on the same object *)

Module RepeatSpec.
Import Tokenizer Parser.

Lemma parse_variant_snd : forall s1 s2 v,
  snd (parse_variant s1 v) = snd (parse_variant s2 v).
Proof.
  intros s1 s2 v. unfold parse_variant. cbv zeta.
  destruct (negb _); [reflexivity|].
  destruct (scan_parens _ _ _ _ _) as [ps pe].
  destruct (_ || _); [reflexivity|].
  destruct (negb _); [reflexivity|].
  unfold tokenize_on, MalformationChecker.checkMalformations_on,
         ParameterChecker.checkParameters_on.
  destruct (MalformationChecker.checkStructuralIssuesFast _ _); [|reflexivity].
  destruct (ParameterChecker.buildParametersFast _ _). reflexivity.
Qed.

Lemma parse_variants_snd : forall vs s1 s2,
  snd (parse_variants s1 vs) = snd (parse_variants s2 vs).
Proof.
  induction vs as [|v vs IH]; intros s1 s2; [reflexivity|].
  cbn [parse_variants].
  pose proof (parse_variant_snd s1 s2 v) as E.
  destruct (parse_variant s1 v) as [t1 r1], (parse_variant s2 v) as [t2 r2].
  cbn [snd] in E. subst r2. destruct r1 as [r1|]; [|reflexivity].
  pose proof (IH t1 t2) as E'.
  destruct (parse_variants t1 vs) as [u1 q1], (parse_variants t2 vs) as [u2 q2].
  cbn [snd] in E'. subst q2. destruct q1; reflexivity.
Qed.

(** C7 (amended). Preprocessing is not idempotent: [**a**] gives [*a*]
    after one pass and [a] after two, and these tokenize differently.
    [tokenize] and [parseSyntax] reset the working state of their object
    on every call: the result does not depend on the object's prior state,
    so calling either twice on the same input, even on the same object,
    gives equal results. *)
Theorem repeated_calls_agree :
  Preprocess.preprocessParameterString
    (Preprocess.preprocessParameterString "**a**") <>
    Preprocess.preprocessParameterString "**a**" /\
  tokenize (Preprocess.preprocessParameterString
              (Preprocess.preprocessParameterString "**a**")) <>
    tokenize (Preprocess.preprocessParameterString "**a**") /\
  (forall (self1 self2 : Tokenizer.State) s,
     snd (tokenize_on self1 s) = snd (tokenize_on self2 s)) /\
  (forall (self : Tokenizer.State) s,
     snd (tokenize_on (fst (tokenize_on self s)) s) = snd (tokenize_on self s)) /\
  (forall (p q : Parser.State) syntax,
     snd (parseSyntax_on p syntax) = snd (parseSyntax_on q syntax)) /\
  (forall (p : Parser.State) syntax,
     snd (parseSyntax_on (fst (parseSyntax_on p syntax)) syntax) =
     snd (parseSyntax_on p syntax)).
Proof.
  assert (P : forall (p q : Parser.State) syntax,
     snd (parseSyntax_on p syntax) = snd (parseSyntax_on q syntax)).
  { intros p q syntax. unfold parseSyntax_on.
    destruct (negb _); [reflexivity|]. apply parse_variants_snd. }
  split; [vm_compute; discriminate|].
  split; [vm_compute; discriminate|].
  split; [intros; reflexivity|].
  split; [intros; reflexivity|].
  split; [exact P|].
  intros p syntax. apply P.
Qed.

End RepeatSpec.

(* ------------------------------------------------------------------ *)
(** ** Tokens are slices of the input; types follow colons *)

Module TokenizerSpec.
Import Tokenizer.
Local Open Scope list_scope.

Definition tok_end (t : Token) : nat := position t + String.length (value t).

(** A token found in [s] and ending at or before [p]. *)
Definition tok_ok (s : string) (p : nat) (t : Token) : Prop :=
  value t <> EmptyString /\
  String.substring (position t) (String.length (value t)) s = value t /\
  tok_end t <= p.

Definition slices (s : string) (st : State) : Prop :=
  input st = s /\ pos st <= String.length s /\
  Forall (tok_ok s (pos st)) (tokens st) /\
  ForallOrdPairs (fun t u => tok_end t <= position u) (tokens st).

Fixpoint last_tok (l : list Token) : option Token :=
  match l with
  | [] => None
  | [x] => Some x
  | _ :: r => last_tok r
  end.

(** [R] holds of every two neighbouring tokens. *)
Fixpoint adj (R : Token -> Token -> Prop) (l : list Token) : Prop :=
  match l with
  | [] => True
  | x :: r => match r with [] => True | y :: _ => R x y /\ adj R r end
  end.

Definition colon_rule (t u : Token) : Prop :=
  (type u = TYPE -> type t = COLON) /\ (type t = COLON -> type u <> PARAMETER_NAME).

Definition typed_after_colon (st : State) : Prop :=
  lastContextToken st = option_map type (last_tok (tokens st)) /\
  adj colon_rule (tokens st) /\
  (forall t, hd_error (tokens st) = Some t -> type t <> TYPE).

Lemma char_is_eq : forall c n, n < 256 -> char_is c n = true -> c = ascii_of_nat n.
Proof.
  intros c n _ H. unfold char_is, code in H. apply Nat.eqb_eq in H.
  rewrite <- H. symmetry. apply ascii_nat_embedding.
Qed.

Lemma substring_get1 : forall s p c,
  String.get p s = Some c -> String.substring p 1 s = String c EmptyString.
Proof.
  induction s as [|a r IH]; intros p c H; [discriminate|].
  destruct p as [|p]; simpl in *.
  - injection H as <-. destruct r; reflexivity.
  - apply IH. exact H.
Qed.

Lemma substring_get2 : forall s p c1 c2,
  String.get p s = Some c1 -> String.get (S p) s = Some c2 ->
  String.substring p 2 s = String c1 (String c2 EmptyString).
Proof.
  induction s as [|a r IH]; intros p c1 c2 H1 H2; [discriminate|].
  destruct p as [|p]; simpl in *.
  - injection H1 as <-. rewrite (substring_get1 r 0 c2 H2). reflexivity.
  - apply IH; assumption.
Qed.

Lemma substring_length : forall s n m,
  n + m <= String.length s -> String.length (String.substring n m s) = m.
Proof.
  induction s as [|a r IH]; intros n m H; simpl in H.
  - assert (n = 0) by lia. assert (m = 0) by lia. subst. reflexivity.
  - destruct n as [|n]; simpl.
    + destruct m as [|m]; simpl; [reflexivity|]. f_equal. apply IH. lia.
    + apply IH. lia.
Qed.

Lemma skip_le : forall s f p,
  p <= String.length s -> skipIdentifierChars s f p <= String.length s.
Proof.
  intros s f; induction f as [|f IH]; intros p H; simpl; [exact H|].
  destruct (p <? String.length s) eqn:E; simpl; [|exact H].
  destruct (char_at s p); [|exact H].
  destruct (isIdentifierChar a); [|exact H].
  apply IH. apply Nat.ltb_lt in E. lia.
Qed.

Lemma char_at_is_get : forall s p n, n < 256 -> char_at_is s p n = true ->
  String.get p s = Some (ascii_of_nat n).
Proof.
  intros s p n Hn H. unfold char_at_is, char_at in H.
  destruct (String.get p s) as [c|]; [|discriminate].
  rewrite (char_is_eq c n Hn H). reflexivity.
Qed.

Lemma ForallOrdPairs_snoc : forall (R : Token -> Token -> Prop) l y,
  ForallOrdPairs R l -> Forall (fun x => R x y) l -> ForallOrdPairs R (l ++ [y]).
Proof.
  intros R l y; induction l as [|a l IH]; intros H F; simpl.
  - constructor; constructor.
  - inversion H; subst. inversion F; subst. constructor.
    + apply Forall_app. split; [assumption | constructor; [assumption | constructor]].
    + apply IH; assumption.
Qed.

Lemma ForallOrdPairs_nth : forall (R : Token -> Token -> Prop) l,
  ForallOrdPairs R l -> forall i j t u, i < j ->
  nth_error l i = Some t -> nth_error l j = Some u -> R t u.
Proof.
  intros R l H; induction H as [|a l Fa H IH]; intros i j t u Hij Hi Hj.
  - destruct i; discriminate.
  - destruct j as [|j]; [lia|]. destruct i as [|i]; simpl in Hi, Hj.
    + injection Hi as <-. rewrite Forall_forall in Fa. apply Fa.
      eapply nth_error_In. exact Hj.
    + apply (IH i j); [lia | assumption | assumption].
Qed.

(** A state obtained by adding one token that starts at the position and
    ends at the new position. *)
Lemma slices_add : forall s st st' t,
  slices s st -> input st' = s -> tokens st' = tokens st ++ [t] ->
  position t = pos st -> tok_end t = pos st' -> pos st' <= String.length s ->
  value t <> EmptyString ->
  String.substring (position t) (String.length (value t)) s = value t ->
  slices s st'.
Proof.
  intros s st st' t [I [P [F O]]] I' T' Pt Et P' Nt St.
  assert (Le : pos st <= pos st') by (unfold tok_end in Et; lia).
  split; [exact I'|]. split; [exact P'|]. rewrite T'. split.
  - apply Forall_app. split.
    + eapply Forall_impl; [|exact F]. intros x [A [B C]]. split; [|split]; auto. lia.
    + constructor; [|constructor]. split; [exact Nt|]. split; [exact St | lia].
  - apply ForallOrdPairs_snoc; [exact O|].
    eapply Forall_impl; [|exact F]. intros x [_ [_ C]]. lia.
Qed.

Lemma slices_move : forall s st st',
  slices s st -> input st' = s -> tokens st' = tokens st ->
  pos st <= pos st' -> pos st' <= String.length s -> slices s st'.
Proof.
  intros s st st' [I [P [F O]]] I' T' L P'.
  split; [exact I'|]. split; [exact P'|]. rewrite T'. split; [|exact O].
  eapply Forall_impl; [|exact F]. intros x [A [B C]]. split; [|split]; auto. lia.
Qed.

Lemma slices_scanIdentifier : forall s st,
  slices s st -> pos st < String.length s -> slices s (scanIdentifier st).
Proof.
  intros s st H L. pose proof H as [I _]. unfold scanIdentifier. rewrite I.
  destruct (char_at_is s (pos st) 46 && (pos st + 1 <? String.length s)
            && char_at_is s (pos st + 1) 46 && (pos st + 2 <? String.length s)
            && char_at_is s (pos st + 2) 46) eqn:E.
  - apply andb_true_iff in E as [E _]. apply andb_true_iff in E as [_ E].
    apply Nat.ltb_lt in E.
    set (p := skipIdentifierChars s (String.length s) (pos st + 3)).
    assert (Hp1 : pos st + 3 <= p) by apply TokenizerFacts.skipIdentifierChars_ge.
    assert (Hp2 : p <= String.length s) by (apply skip_le; lia).
    assert (Ln : String.length (js_substring s (pos st) p) = p - pos st)
      by (unfold js_substring; apply substring_length; lia).
    eapply slices_add; [exact H | exact I | reflexivity | reflexivity
                       | unfold tok_end; simpl; lia | simpl; lia | | ].
    + simpl. intros Z. rewrite Z in Ln. simpl in Ln. lia.
    + simpl. rewrite Ln. reflexivity.
  - set (p := skipIdentifierChars s (String.length s) (pos st)).
    assert (Hp2 : p <= String.length s) by (apply skip_le; lia).
    destruct (pos st <? p) eqn:E2.
    + apply Nat.ltb_lt in E2.
      assert (Ln : String.length (js_substring s (pos st) p) = p - pos st)
        by (unfold js_substring; apply substring_length; lia).
      eapply slices_add; [exact H | exact I | reflexivity | reflexivity
                         | unfold tok_end; simpl; lia | simpl; lia | | ].
      * simpl. intros Z. rewrite Z in Ln. simpl in Ln. lia.
      * simpl. rewrite Ln. reflexivity.
    + eapply slices_move; [exact H | exact I | reflexivity | simpl; lia | simpl; lia].
Qed.

Lemma slices_scanToken : forall s st,
  slices s st -> pos st < String.length s -> slices s (scanToken st).
Proof.
  intros s st H L. pose proof H as [I _].
  unfold scanToken. rewrite I.
  destruct (char_at s (pos st)) as [c|] eqn:G; [|apply slices_scanIdentifier; assumption].
  destruct (is_tok_space c).
  { eapply slices_move; [exact H | exact I | reflexivity | simpl; lia | simpl; lia]. }
  destruct (char_is c 92 && (pos st + 1 <? String.length s)
            && char_at_is s (pos st + 1) 42) eqn:E1.
  { destruct (andb_prop _ _ E1) as [E4 E3]. destruct (andb_prop _ _ E4) as [E5 E2].
    apply Nat.ltb_lt in E2.
    apply char_is_eq in E5; [|lia]. apply char_at_is_get in E3; [|lia].
    eapply slices_add; [exact H | exact I | reflexivity | reflexivity
                       | reflexivity | simpl; lia | discriminate | ].
    simpl. unfold char_at in G. subst c. rewrite Nat.add_1_r in E3.
    rewrite (substring_get2 s (pos st) _ _ G E3). reflexivity. }
  destruct (char_is c 45 && (pos st + 1 <? String.length s)
            && char_at_is s (pos st + 1) 62) eqn:E6.
  { destruct (andb_prop _ _ E6) as [E4 E3]. destruct (andb_prop _ _ E4) as [E5 E2].
    apply Nat.ltb_lt in E2.
    apply char_is_eq in E5; [|lia]. apply char_at_is_get in E3; [|lia].
    eapply slices_add; [exact H | exact I | reflexivity | reflexivity
                       | reflexivity | simpl; lia | discriminate | ].
    simpl. unfold char_at in G. subst c. rewrite Nat.add_1_r in E3.
    rewrite (substring_get2 s (pos st) _ _ G E3). reflexivity. }
  destruct (single_char_token (code c)).
  - eapply slices_add; [exact H | exact I | reflexivity | reflexivity
                       | unfold tok_end; simpl; lia | simpl; lia | discriminate | ].
    simpl. apply substring_get1. exact G.
  - rewrite <- I. apply slices_scanIdentifier; [rewrite I; exact H | rewrite I; exact L].
Qed.

Lemma run_keeps : forall (Inv : State -> Prop),
  (forall st, Inv st -> pos st < String.length (input st) -> Inv (scanToken st)) ->
  forall f st, Inv st -> Inv (run f st).
Proof.
  intros Inv Step f; induction f as [|f IH]; intros st H; simpl; [exact H|].
  destruct (pos st <? String.length (input st)) eqn:E; [|exact H].
  apply IH. apply Step; [exact H | apply Nat.ltb_lt; exact E].
Qed.

Lemma slices_run : forall s, slices s (run (String.length s) (mkState s 0 [] None)).
Proof.
  intros s.
  apply (run_keeps (fun st => slices s st /\ input st = s)).
  - intros st [H I] L. split.
    + apply slices_scanToken; [exact H | rewrite <- I; exact L].
    + rewrite TokenizerFacts.scanToken_input. exact I.
  - split; [|reflexivity]. split; [reflexivity|]. split; [simpl; lia|].
    split; constructor.
Qed.

Lemma last_tok_snoc : forall l y, last_tok (l ++ [y]) = Some y.
Proof.
  induction l as [|a l IH]; intros y; [reflexivity|].
  simpl. destruct l as [|b l]; [reflexivity|]. apply IH.
Qed.

Lemma adj_snoc : forall R l y,
  adj R l -> (forall x, last_tok l = Some x -> R x y) -> adj R (l ++ [y]).
Proof.
  intros R l y; induction l as [|a l IH]; intros H L; [exact I|].
  destruct l as [|b l].
  - simpl. split; [apply L; reflexivity | exact I].
  - destruct H as [H1 H2]. change ((a :: b :: l) ++ [y]) with (a :: (b :: l) ++ [y]).
    cbn [adj app]. split; [exact H1|].
    change (b :: l ++ [y]) with ((b :: l) ++ [y]).
    apply IH; [exact H2|]. intros x Hx. apply L. exact Hx.
Qed.

Lemma adj_nth : forall R l i t u, adj R l ->
  nth_error l i = Some t -> nth_error l (S i) = Some u -> R t u.
Proof.
  intros R l; induction l as [|a l IH]; intros i t u H Hi Hj; [destruct i; discriminate|].
  destruct l as [|b l]; [destruct i as [|[|i]]; discriminate|].
  destruct H as [H1 H2]. destruct i as [|i]; simpl in Hi, Hj.
  - injection Hi as <-. injection Hj as <-. exact H1.
  - apply (IH i); [exact H2 | exact Hi | exact Hj].
Qed.

Lemma typed_add : forall st ty v p,
  typed_after_colon st ->
  (ty = TYPE -> lastContextToken st = Some COLON) ->
  (lastContextToken st = Some COLON -> ty <> PARAMETER_NAME) ->
  typed_after_colon (addToken st ty v p).
Proof.
  intros st ty v p [L [A Hd]] H1 H2. unfold addToken. split; [|split]; simpl.
  - rewrite last_tok_snoc. reflexivity.
  - apply adj_snoc; [exact A|]. intros x Hx. rewrite L, Hx in H1, H2. simpl in H1, H2.
    split; simpl.
    + intros E. specialize (H1 E). congruence.
    + intros E. apply H2. rewrite E. reflexivity.
  - destruct (tokens st) as [|t0 r] eqn:T; simpl.
    + intros t E. injection E as <-. simpl. intros E. specialize (H1 E).
      rewrite L in H1. discriminate.
    + intros t E. apply Hd. simpl. exact E.
Qed.

Lemma typed_setPos : forall st p, typed_after_colon st -> typed_after_colon (setPos st p).
Proof. intros st p H. exact H. Qed.

Ltac not_type_param := split; [discriminate | intros _; discriminate].

Lemma typed_scanIdentifier : forall st,
  typed_after_colon st -> typed_after_colon (scanIdentifier st).
Proof.
  intros st H. unfold scanIdentifier.
  destruct (_ && _ && _ && _ && _).
  - apply typed_add; [exact H | discriminate | intros _; discriminate].
  - destruct (_ <? _); [|exact H]. apply typed_add; [exact H | |].
    + cbn [setPos lastContextToken].
      destruct (lastContextToken st) as [[]|]; simpl; try discriminate; reflexivity.
    + cbn [setPos lastContextToken]. intros E. rewrite E. discriminate.
Qed.

Lemma single_char_not_name : forall n ty,
  single_char_token n = Some ty -> ty <> TYPE /\ ty <> PARAMETER_NAME.
Proof.
  intros n ty H. unfold single_char_token in H.
  repeat (destruct (Nat.eqb n _); [injection H as <-; split; discriminate|]).
  discriminate.
Qed.

Lemma typed_scanToken : forall st,
  typed_after_colon st -> typed_after_colon (scanToken st).
Proof.
  intros st H. unfold scanToken.
  destruct (char_at _ _) as [c|]; [|apply typed_scanIdentifier; exact H].
  destruct (is_tok_space c); [exact H|].
  destruct (_ && _ && _).
  { apply typed_setPos, typed_add; [exact H | discriminate | intros _; discriminate]. }
  destruct (_ && _ && _).
  { apply typed_setPos, typed_add; [exact H | discriminate | intros _; discriminate]. }
  destruct (single_char_token (code c)) as [ty|] eqn:E.
  - destruct (single_char_not_name _ _ E) as [N1 N2].
    apply typed_setPos, typed_add; [exact H | intros X; contradiction | intros _; exact N2].
  - apply typed_scanIdentifier. exact H.
Qed.

(** Every token of [tokenize s] is a non-empty slice of [s] found at its
    [position] and ending inside [s]; tokens come in input order and do
    not overlap. *)
Theorem tokenize_tokens_are_slices : forall s,
  (forall t, In t (tokenize s) ->
     value t <> EmptyString /\
     String.substring (position t) (String.length (value t)) s = value t /\
     position t + String.length (value t) <= String.length s) /\
  (forall i j t u, i < j ->
     nth_error (tokenize s) i = Some t -> nth_error (tokenize s) j = Some u ->
     position t + String.length (value t) <= position u).
Proof.
  intros s. pose proof (slices_run s) as [_ [P [F O]]].
  unfold tokenize, tokenize_on. cbn [snd]. split.
  - intros t Ht. rewrite Forall_forall in F. destruct (F t Ht) as [A [B C]].
    unfold tok_end in C. split; [exact A|]. split; [exact B | lia].
  - intros i j t u Hij Hi Hj. exact (ForallOrdPairs_nth _ _ O i j t u Hij Hi Hj).
Qed.

(** A [TYPE] token of [tokenize s] is never the first token and always
    comes right after a [COLON] token; the token after a [COLON] is never
    a [PARAMETER_NAME]. *)
Theorem tokenize_type_after_colon : forall s,
  (forall i u, nth_error (tokenize s) i = Some u -> type u = TYPE ->
     exists j t, i = S j /\ nth_error (tokenize s) j = Some t /\ type t = COLON) /\
  (forall i t u, nth_error (tokenize s) i = Some t ->
     nth_error (tokenize s) (S i) = Some u ->
     type t = COLON -> type u <> PARAMETER_NAME).
Proof.
  intros s.
  assert (H : typed_after_colon (run (String.length s) (mkState s 0 [] None))).
  { apply (run_keeps typed_after_colon).
    - intros st Hs _. apply typed_scanToken. exact Hs.
    - split; [reflexivity|]. split; [exact I|]. intros t E. discriminate. }
  destruct H as [_ [A Hd]]. unfold tokenize, tokenize_on. cbn [snd]. split.
  - intros [|j] u Hu Ty.
    + exfalso. apply (Hd u); [|exact Ty].
      destruct (tokens _); [discriminate | exact Hu].
    + destruct (nth_error (tokens (run (String.length s) (mkState s 0 [] None))) j)
        as [t|] eqn:Ht.
      * exists j, t. split; [reflexivity|]. split; [exact Ht|].
        exact (proj1 (adj_nth _ _ j t u A Ht Hu) Ty).
      * exfalso. apply nth_error_None in Ht.
        assert (S j < length (tokens (run (String.length s) (mkState s 0 [] None)))).
        { apply nth_error_Some. rewrite Hu. discriminate. }
        lia.
  - intros i t u Ht Hu C. exact (proj2 (adj_nth _ _ i t u A Ht Hu) C).
Qed.

(** Witness of [tokenize_tokens_are_slices] on "a : Text; *": the TYPE token
    at 4 is the slice "Text", and the COLON token before it ends by then. *)
Lemma tokenize_tokens_are_slices_witness :
  String.substring 4 4 "a : Text; *" = "Text" /\ 2 + 1 <= 4.
Proof.
  destruct (tokenize_tokens_are_slices "a : Text; *") as [A B]. split.
  - destruct (A (mkToken TYPE "Text" 4)) as [_ [H _]]; [|exact H].
    vm_compute. right. right. left. reflexivity.
  - apply (B 1 2 (mkToken COLON ":" 2) (mkToken TYPE "Text" 4)); [lia|reflexivity|reflexivity].
Defined.

(** Witness of [tokenize_type_after_colon] on "a : Text; *". *)
Lemma tokenize_type_after_colon_witness :
  (exists j t, 2 = S j /\ nth_error (tokenize "a : Text; *") j = Some t /\ type t = COLON) /\
  TYPE <> PARAMETER_NAME.
Proof.
  destruct (tokenize_type_after_colon "a : Text; *") as [A B]. split.
  - apply (A 2 (mkToken TYPE "Text" 4)); reflexivity.
  - apply (B 1 (mkToken COLON ":" 2) (mkToken TYPE "Text" 4)); reflexivity.
Defined.

End TokenizerSpec.

(* ------------------------------------------------------------------ *)
(** ** One variant per non-blank segment *)

Module ParserSpec.
Import Types Parser.
Local Open Scope list_scope.

Definition malformation_ok (v : ParsedVariant) : Prop :=
  forall m, malformation v = Some m -> isMalformed m = true /\ issues m <> [].

Lemma parse_variant_shape : forall self v vs,
  snd (parse_variant self v) = Some vs ->
  map variant vs = (if ParameterChecker.is_nonempty (trim v) then [trim v] else []) /\
  Forall malformation_ok vs.
Proof.
  intros self v vs. unfold parse_variant. cbv zeta.
  destruct (ParameterChecker.is_nonempty (trim v)); cbn [negb];
    [|intros F; injection F as <-; split; [reflexivity | constructor]].
  destruct (scan_parens _ _ _ _ _) as [ps pe].
  destruct (_ || _).
  { intros F; injection F as <-. split; [reflexivity|]. constructor; [|constructor].
    intros m E. injection E as <-. split; [reflexivity|].
    destruct (ps =? -1)%Z; discriminate. }
  destruct (negb _).
  { intros F; injection F as <-.
    split; [reflexivity|]. constructor; [|constructor]. intros m E. discriminate. }
  unfold Tokenizer.tokenize_on, MalformationChecker.checkMalformations_on,
         ParameterChecker.checkParameters_on.
  destruct (MalformationChecker.checkStructuralIssuesFast _ _); [|discriminate].
  destruct (ParameterChecker.buildParametersFast _ _) as [pst ps'].
  cbn [snd fst]. intros F; injection F as <-.
  split; [reflexivity|]. constructor; [|constructor].
  intros m. cbn [malformation].
  destruct (_ ++ _) as [|i l] eqn:E; [discriminate|].
  intros F. injection F as <-. split; [reflexivity|]. cbn [issues]. discriminate.
Qed.

Lemma parse_variants_shape : forall vs self ws,
  snd (parse_variants self vs) = Some ws ->
  map variant ws = filter ParameterChecker.is_nonempty (map trim vs) /\
  Forall malformation_ok ws.
Proof.
  induction vs as [|v vs IH]; intros self ws.
  { intros F; injection F as <-. split; [reflexivity | constructor]. }
  cbn [parse_variants].
  pose proof (parse_variant_shape self v) as S1.
  destruct (parse_variant self v) as [t [r|]]; [|discriminate]. cbn [snd] in S1.
  destruct (S1 r eq_refl) as [M1 F1].
  pose proof (IH t) as S2.
  destruct (parse_variants t vs) as [u [q|]]; [|discriminate]. cbn [snd] in S2 |- *.
  destruct (S2 q eq_refl) as [M2 F2].
  intros F; injection F as <-.
  rewrite map_app, M1, M2. split.
  - cbn [map filter]. destruct (ParameterChecker.is_nonempty (trim v)); reflexivity.
  - apply Forall_app. split; assumption.
Qed.

(** X3. Whenever [parseSyntax] returns, it returns one variant per
    non-blank [<br/>]-separated segment of the syntax, in order, whose
    [variant] field is the trimmed segment; a variant that carries a
    malformation has it flagged [isMalformed] with a non-empty issue
    list. *)
Theorem parseSyntax_variants : forall syntax vs,
  parseSyntax syntax = Some vs ->
  map variant vs =
    filter ParameterChecker.is_nonempty (map trim (split syntax "<br/>")) /\
  (forall v m, In v vs -> malformation v = Some m ->
     isMalformed m = true /\ issues m <> []).
Proof.
  intros syntax vs. unfold parseSyntax, parseSyntax_on.
  destruct (ParameterChecker.is_nonempty syntax) eqn:E; cbn [negb].
  - intros H. destruct (parse_variants_shape (split syntax "<br/>") init vs H) as [M F].
    split; [exact M|]. intros v m Hv. rewrite Forall_forall in F. exact (F v Hv m).
  - intros F; injection F as <-.
    destruct syntax; [|discriminate]. split; [reflexivity|]. intros v m [].
Qed.

Definition two_variants : string := "f(a : Text; *)<br/>g(b : : T)".

Definition two_variants_result : list ParsedVariant :=
  Eval vm_compute in
    match parseSyntax two_variants with Some l => l | None => [] end.

(** Witness of [parseSyntax_variants] on two variants, the second one
    malformed. *)
Lemma parseSyntax_variants_witness :
  parseSyntax two_variants = Some two_variants_result /\
  (map variant two_variants_result =
     filter ParameterChecker.is_nonempty (map trim (split two_variants "<br/>")) /\
   (forall v m, In v two_variants_result -> malformation v = Some m ->
      isMalformed m = true /\ issues m <> [])).
Proof.
  assert (E : parseSyntax two_variants = Some two_variants_result)
    by (vm_compute; reflexivity).
  exact (conj E (parseSyntax_variants _ _ E)).
Defined.

End ParserSpec.

(* ------------------------------------------------------------------ *)
(** ** [checkSyntaxStructure] against the scan of [parseSyntax] *)

Module StructureSpec.
Import Types MalformationChecker Parser.
Local Open Scope list_scope.

Lemma scan_structure_parens : forall s i a b d,
  scan_structure s i a b d = scan_parens s i a b d.
Proof.
  induction s as [|c r IH]; intros i a b d; [reflexivity|].
  simpl. destruct (char_is c 40); [apply IH|].
  destruct (char_is c 41); [|apply IH].
  destruct (_ && _); [reflexivity | apply IH].
Qed.

(** X4. For every non-blank variant, what [parseSyntax] makes of it is
    fixed by [checkSyntaxStructure] on the trimmed variant: when that finds
    no parameter string, the variant gets the "Missing opening parenthesis"
    malformation if [checkSyntaxStructure] reported nothing (the case it
    treats as a property without parameters) and "Missing closing
    parenthesis" otherwise; when it finds a blank one, the variant has no
    parameters; when it finds a non-blank one, the variant loop throws
    exactly when [checkMalformations] throws on the tokens of the
    preprocessed parameter string, and otherwise the variant's parameters
    are those [checkParameters] builds from these tokens. *)
Theorem parse_variant_follows_structure : forall self v,
  ParameterChecker.is_nonempty (trim v) = true ->
  let cs := checkSyntaxStructure (trim v) in
  match paramString cs with
  | None =>
      option_map (map malformation) (snd (parse_variant self v)) =
        Some [Some (mkInfo true
           [Literal (match structuralIssues cs with
                     | [] => "Missing opening parenthesis"
                     | _ => "Missing closing parenthesis" end) LEVEL_1])]
  | Some p =>
      option_map (map parameters) (snd (parse_variant self v)) =
        if ParameterChecker.is_nonempty p
        then let toks := Tokenizer.tokenize (Preprocess.preprocessParameterString p) in
             option_map (fun _ => [fst (ParameterChecker.checkParameters toks)])
                        (MalformationChecker.checkMalformations toks)
        else Some [[]]
  end.
Proof.
  intros self v Hv cs. subst cs. unfold checkSyntaxStructure, parse_variant.
  rewrite scan_structure_parens. cbv zeta. rewrite Hv. cbn [negb].
  destruct (scan_parens (trim v) 0 (-1) (-1) 0) as [ps pe].
  destruct (ps =? -1)%Z; cbn [orb]; [reflexivity|].
  destruct (pe =? -1)%Z; [reflexivity|]. cbn [paramString].
  destruct (ParameterChecker.is_nonempty
              (trim (js_substring (trim v) (Z.to_nat ps) (Z.to_nat pe))));
    cbn [negb]; [|reflexivity].
  unfold Tokenizer.tokenize_on, MalformationChecker.checkMalformations,
         MalformationChecker.checkMalformations_on,
         ParameterChecker.checkParameters, ParameterChecker.checkParameters_on,
         Tokenizer.tokenize, Tokenizer.tokenize_on.
  destruct (MalformationChecker.checkStructuralIssuesFast _ _); [|reflexivity].
  destruct (ParameterChecker.buildParametersFast _ _). reflexivity.
Qed.

Lemma parse_variant_follows_structure_witness :
  ParameterChecker.is_nonempty (trim "f(a : Text)") = true /\
  option_map (map parameters) (snd (parse_variant init "f(a : Text)")) =
    Some [[mkParam "a" "Text" false false]].
Proof.
  split; [reflexivity|].
  pose proof (parse_variant_follows_structure init "f(a : Text)" eq_refl) as H.
  vm_compute in H. vm_compute. exact H.
Defined.

End StructureSpec.

(* ------------------------------------------------------------------ *)
(** ** Where the parameters of [checkParameters] come from *)

Module ParamProvenance.
Import Tokenizer Types ParameterChecker Ref.
Local Open Scope list_scope.

Section Provenance.
Variable toks : list Token.

(** The type of a parameter: the default or the text of a [TYPE] token. *)
Definition type_from_tokens (ty : string) : Prop :=
  ty = "unknown" \/ exists u, In u toks /\ type u = TYPE /\ value u = ty.

(** A parameter under construction: started by a name or spread token. *)
Definition from_name (c : ParsedParameter) : Prop :=
  exists t, In t toks /\ (type t = PARAMETER_NAME \/ type t = SPREAD) /\
    name c = param_name_of t /\ spread c = is_tok t SPREAD /\
    type_from_tokens (param_type c).

Definition well_formed (p : ParsedParameter) : Prop :=
  (exists t, In t toks /\ (type t = OPERATOR \/ type t = ESCAPED_ASTERISK) /\
     p = mkParam (value t) "operator" (optional p) false) \/
  (from_name p /\ name p <> EmptyString /\ name p <> "{" /\ name p <> "}" /\
   name p <> ";" /\ param_type p <> EmptyString).

Definition loop_ok (l : Loop) : Prop :=
  Forall well_formed (parameters l) /\
  (forall c, currentParam l = Some c -> from_name c).

Lemma finish_ok : forall c ps d,
  from_name c -> Forall well_formed ps ->
  Forall well_formed (finishParameterFast c ps d).
Proof.
  intros c ps d Hc F. unfold finishParameterFast.
  destruct (is_nonempty (name c)) eqn:N; cbn [negb]; [|exact F].
  cbn [name].
  destruct (is_nonempty (name c) && negb (String.eqb (name c) "}")
            && negb (String.eqb (name c) "{") && negb (String.eqb (name c) ";")) eqn:E;
    [|exact F].
  apply Forall_app. split; [exact F|]. constructor; [|constructor].
  right. destruct Hc as [t [It [Tt [Nt [St Yt]]]]].
  apply andb_true_iff in E as [E E3]. apply andb_true_iff in E as [E E2].
  apply andb_true_iff in E as [_ E1].
  apply negb_true_iff, String.eqb_neq in E1, E2, E3.
  split; [|split; [|split; [|split; [|split]]]]; cbn [name param_type spread];
    try assumption.
  - exists t. split; [exact It|]. split; [exact Tt|]. cbn [name param_type spread].
    split; [exact Nt|]. split; [exact St|].
    destruct (is_nonempty (param_type c)); [exact Yt | left; reflexivity].
  - intros Z. rewrite Z in N. discriminate.
  - destruct (is_nonempty (param_type c)) eqn:Y; [|discriminate].
    intros Z. rewrite Z in Y. discriminate.
Qed.

Lemma flush_ok : forall l, loop_ok l -> Forall well_formed (flush l).
Proof.
  intros l [F C]. unfold flush. destruct (currentParam l) as [c|] eqn:E; [|exact F].
  destruct (is_nonempty (name c)); [|exact F].
  apply finish_ok; [apply C; reflexivity | exact F].
Qed.

Lemma step_ok : forall l i, loop_ok l -> loop_ok (step toks l i).
Proof.
  intros l i H. pose proof H as [F C]. unfold step.
  destruct (nth_error toks i) as [token|] eqn:Ei; [|exact H].
  assert (In_t : In token toks) by (eapply nth_error_In; exact Ei).
  destruct (type token) eqn:Ty.
  - split; cbn [parameters currentParam]; [apply flush_ok; exact H|].
    intros c E. injection E as <-. exists token. split; [exact In_t|].
    split; [left; exact Ty|]. unfold param_name_of, is_tok. rewrite Ty. cbn.
    split; [reflexivity|]. split; [reflexivity | left; reflexivity].
  - exact H.
  - destruct (currentParam l) as [c|] eqn:Ec; [|exact H].
    destruct (ParameterChecker.is_type
                (match i with O => None | S j => nth_error toks j end) COLON); [|exact H].
    split; [exact F|]. cbn [currentParam]. intros c' E. injection E as <-.
    destruct (C c eq_refl) as [t [It [Tt [Nt [St _]]]]].
    exists t. split; [exact It|]. split; [exact Tt|]. cbn [name spread param_type].
    split; [exact Nt|]. split; [exact St|]. right. exists token. auto.
  - destruct (currentParam l) as [c|] eqn:Ec; [|exact H].
    destruct (is_nonempty (name c)); [|exact H].
    split; cbn [parameters currentParam]; [apply flush_ok; exact H | discriminate].
  - exact (conj F C).
  - exact (conj F C).
  - exact H.
  - exact H.
  - exact H.
  - split; cbn [parameters currentParam]; [|exact C].
    apply Forall_app. split; [exact F|]. constructor; [|constructor].
    left. exists token. split; [exact In_t|]. split; [left; exact Ty | reflexivity].
  - split; cbn [parameters currentParam]; [apply flush_ok; exact H|].
    intros c E. injection E as <-. exists token. split; [exact In_t|].
    split; [right; exact Ty|]. unfold param_name_of, is_tok. rewrite Ty. cbn.
    split; [reflexivity|]. split; [reflexivity | left; reflexivity].
  - split; cbn [parameters currentParam]; [|exact C].
    apply Forall_app. split; [exact F|]. constructor; [|constructor].
    left. exists token. split; [exact In_t|]. split; [right; exact Ty | reflexivity].
  - exact H.
  - exact H.
Qed.

End Provenance.

(** Every parameter [checkParameters] returns comes from a token of its
    input: either it is the synthetic parameter of an [OPERATOR] or
    [ESCAPED_ASTERISK] token (named by the token's text, type
    "operator", not spread), or it was started by a [PARAMETER_NAME] or
    [SPREAD] token, whose name (with a leading "..." dropped for a spread)
    it carries, is spread exactly when that token is a [SPREAD], has a
    non-empty name other than "{", "}" and ";", and has as type either
    "unknown" or the text of a [TYPE] token. *)
Theorem checkParameters_provenance : forall toks p,
  In p (fst (checkParameters toks)) ->
  (exists t, In t toks /\ (type t = OPERATOR \/ type t = ESCAPED_ASTERISK) /\
     p = mkParam (value t) "operator" (optional p) false) \/
  ((exists t, In t toks /\ (type t = PARAMETER_NAME \/ type t = SPREAD) /\
     name p = param_name_of t /\ spread p = is_tok t SPREAD) /\
   name p <> EmptyString /\ name p <> "{" /\ name p <> "}" /\ name p <> ";" /\
   (param_type p = "unknown" \/
    exists u, In u toks /\ type u = TYPE /\ value u = param_type p)).
Proof.
  intros toks p Hp.
  assert (L : forall js l, loop_ok toks l -> loop_ok toks (fold_left (step toks) js l)).
  { induction js as [|j js IH]; intros l Hl; [exact Hl|]. apply IH, step_ok, Hl. }
  unfold checkParameters, checkParameters_on, buildParametersFast in Hp. cbn [snd fst] in Hp.
  assert (L0 : loop_ok toks (mkLoop (mkState []) [] None 0%Z)).
  { split; [constructor | intros c E; discriminate E]. }
  pose proof (flush_ok toks _ (L (seq 0 (length toks)) _ L0)) as F.
  rewrite Forall_forall in F. destruct (F p Hp) as [Op | [[t [It [Tt [Nt [St Yt]]]]] R]].
  - left. exact Op.
  - right. split; [exists t; auto|]. destruct R as [R1 [R2 [R3 [R4 _]]]].
    split; [exact R1|]. split; [exact R2|]. split; [exact R3|]. split; [exact R4|].
    exact Yt.
Qed.

(** Witness of [checkParameters_provenance]: the operator "*" in "a : Text; *". *)
Lemma checkParameters_provenance_witness :
  (exists t, In t (tokenize "a : Text; *") /\ (type t = OPERATOR \/ type t = ESCAPED_ASTERISK) /\
     mkParam "*" "operator" false false = mkParam (value t) "operator" false false) \/
  ((exists t, In t (tokenize "a : Text; *") /\ (type t = PARAMETER_NAME \/ type t = SPREAD) /\
     "*" = Ref.param_name_of t /\ false = Ref.is_tok t SPREAD) /\
   "*" <> EmptyString /\ "*" <> "{" /\ "*" <> "}" /\ "*" <> ";" /\
   ("operator" = "unknown" \/
    exists u, In u (tokenize "a : Text; *") /\ type u = TYPE /\ value u = "operator")).
Proof.
  apply (checkParameters_provenance (tokenize "a : Text; *") (mkParam "*" "operator" false false)).
  vm_compute. right. left. reflexivity.
Defined.

End ParamProvenance.

(* ------------------------------------------------------------------ *)
(** ** The colon issues of [checkMalformations], and when it throws *)

Module MalformationCensus.
Import Tokenizer Types MalformationChecker Ref MalformationFacts.
Local Open Scope list_scope.

(** [window g None l]: the sum, over the tokens [x] of [l], of [g] applied
    to the token before [x] (if any), [x] and the token after [x] (if any). *)
Fixpoint window (g : option Token -> Token -> option Token -> nat)
  (before : option Token) (l : list Token) : nat :=
  match l with
  | [] => 0
  | x :: r => g before x (hd_error r) + window g (Some x) r
  end.

Definition one (b : bool) : nat := if b then 1 else 0.

(** [COLON] tokens not preceded by a [PARAMETER_NAME] or [SPREAD] token. *)
Definition colons_without_name (l : list Token) : nat :=
  window (fun p x _ => one (is_tok x COLON &&
    negb (match p with
          | Some q => is_tok q PARAMETER_NAME || is_tok q SPREAD
          | None => false end))) None l.

(** [COLON] tokens directly followed by a token of type [b]. *)
Definition colons_before (b : TokenType) (l : list Token) : nat :=
  window (fun _ x n => one (is_tok x COLON &&
    match n with Some y => is_tok y b | None => false end)) None l.

(** [COLON] tokens with no token after them. *)
Definition trailing_colons (l : list Token) : nat :=
  window (fun _ x n => one (is_tok x COLON &&
    match n with Some _ => false | None => true end)) None l.

Definition brace_code (c : WarningCode) : bool :=
  match c with EXTRA_CLOSING_BRACE | UNCLOSED_OPTIONAL_BLOCK => true | _ => false end.

Definition empty_code (c : WarningCode) : bool :=
  match c with
  | EMPTY_PARAMETER_DOUBLE_SEMICOLON | EMPTY_PARAMETER_AT_START => true | _ => false end.

Definition fast_colon_code (c : WarningCode) : bool :=
  match c with UNEXPECTED_COLON_NO_PARAM | DOUBLE_COLON => true | _ => false end.

Definition late_colon_code (c : WarningCode) : bool :=
  match c with
  | UNEXPECTED_SEMICOLON_AFTER_COLON | UNEXPECTED_CLOSING_BRACE_AFTER_COLON
  | PARAMETER_EMPTY_TYPE_AFTER_COLON => true
  | _ => false end.

Lemma brace_keep_gen : forall c st toks, brace_code c = false ->
  filt c (checkBraceBalanceFast st toks) = filt c st.
Proof.
  intros c st toks Hc.
  assert (G : forall l st d, filt c (fst (fold_left brace_step l (st, d))) = filt c st).
  { induction l as [|t l IH]; intros st' d; [reflexivity|].
    simpl. destruct (type t); try apply IH.
    destruct (d - 1 <? 0)%Z; rewrite IH; [|reflexivity].
    rewrite filt_addIssue. destruct c; try discriminate Hc; apply app_nil_r. }
  unfold checkBraceBalanceFast.
  pose proof (G toks st 0%Z) as G0.
  destruct (fold_left brace_step toks (st, 0%Z)) as [st' d].
  simpl in G0. destruct (0 <? d)%Z; [|exact G0].
  rewrite filt_addIssue, G0. destruct c; try discriminate Hc; apply app_nil_r.
Qed.

Lemma empty_fast_keep_gen : forall c st toks, empty_code c = false ->
  filt c (checkEmptyParametersFast st toks) = filt c st.
Proof. intros c st toks Hc. unfold checkEmptyParametersFast. keep c Hc. Qed.

Lemma empty_keep_gen : forall c st toks, empty_code c = false ->
  filt c (checkEmptyParameters st toks) = filt c st.
Proof. intros c st toks Hc. unfold checkEmptyParameters. keep c Hc. Qed.

Lemma unexpected_fast_keep_gen : forall c st toks, fast_colon_code c = false ->
  filt c (checkUnexpectedTokensFast st toks) = filt c st.
Proof. intros c st toks Hc. unfold checkUnexpectedTokensFast. keep c Hc. Qed.

Lemma unexpected_keep_gen : forall c st toks, late_colon_code c = false ->
  filt c (checkUnexpectedTokens st toks) = filt c st.
Proof. intros c st toks Hc. unfold checkUnexpectedTokens. keep c Hc. Qed.

Lemma unexpected_fast_filt : forall c st toks,
  filt c (checkUnexpectedTokensFast st toks) =
  filt c st ++ concat (map (fun i =>
    if is_type (nth_error toks i) COLON then
      (if negb (is_type (prev toks i) PARAMETER_NAME || is_type (prev toks i) SPREAD)
       then code_is c UNEXPECTED_COLON_NO_PARAM NoArg else []) ++
      (if is_type (nth_error toks (S i)) COLON then code_is c DOUBLE_COLON NoArg else [])
    else []) (seq 0 (length toks))).
Proof. intros. apply fold_filt. intros st' i. unfold code_is. crunch. Qed.

Lemma unexpected_filt : forall c st toks,
  filt c (checkUnexpectedTokens st toks) =
  filt c st ++ concat (map (fun i =>
    (match nth_error toks (S i) with
     | Some _ =>
         if is_type (nth_error toks i) COLON then
           (if is_type (nth_error toks (S i)) SEMICOLON
            then code_is c UNEXPECTED_SEMICOLON_AFTER_COLON NoArg else []) ++
           (if is_type (nth_error toks (S i)) CLOSE_BRACE
            then code_is c UNEXPECTED_CLOSING_BRACE_AFTER_COLON NoArg else [])
         else []
     | None => [] end) ++
    (match nth_error toks (S i) with
     | None => if is_type (nth_error toks i) COLON
               then code_is c PARAMETER_EMPTY_TYPE_AFTER_COLON NoArg else []
     | Some _ => [] end)) (seq 0 (length toks))).
Proof. intros. apply fold_filt. intros st' i. unfold code_is. crunch. Qed.

Definition prev_with (p0 : option Token) (l : list Token) (i : nat) : option Token :=
  match i with O => p0 | S j => nth_error l j end.

Lemma window_sum : forall g l p0,
  list_sum (map (fun i =>
    match nth_error l i with
    | Some x => g (prev_with p0 l i) x (nth_error l (S i))
    | None => 0 end) (seq 0 (length l))) = window g p0 l.
Proof.
  intros g l; induction l as [|a r IH]; intros p0; [reflexivity|].
  cbn [length]. change (seq 0 (S (length r))) with (0 :: seq 1 (length r)).
  rewrite <- seq_shift, map_cons, map_map.
  cbn [window]. rewrite <- (IH (Some a)). cbn [list_sum fold_right].
  f_equal. unfold list_sum. f_equal. apply map_ext. intros [|j]; reflexivity.
Qed.

(** A list made of empty and singleton [[x]] pieces. *)
Lemma concat_singletons : forall {A} (x : A) (h : nat -> list A) l,
  (forall i, h i = [] \/ h i = [x]) ->
  concat (map h l) = repeat x (list_sum (map (fun i => length (h i)) l)).
Proof.
  intros A x h l H; induction l as [|i l IH]; [reflexivity|].
  cbn [map concat]. rewrite IH.
  destruct (H i) as [E|E]; rewrite E; reflexivity.
Qed.

Lemma count_by_window : forall (x : MalformationIssue) (h : nat -> list MalformationIssue)
  toks g,
  (forall i, h i = [] \/ h i = [x]) ->
  (forall i, length (h i) =
     match nth_error toks i with
     | Some t => g (prev toks i) t (nth_error toks (S i))
     | None => 0 end) ->
  concat (map h (seq 0 (length toks))) = repeat x (window g None toks).
Proof.
  intros x h toks g H1 H2. rewrite concat_singletons with (x := x) by exact H1.
  rewrite <- window_sum. f_equal. apply (f_equal list_sum). apply map_ext. intros i. rewrite H2.
  destruct i; reflexivity.
Qed.

Lemma filt_init : forall c, filt c (mkState []) = [].
Proof. reflexivity. Qed.

Ltac piece :=
  intros i; unfold code_is, is_type, is_tok, one; cbn [WarningCode_eqb];
  repeat match goal with
         | |- context [match ?o with Some _ => _ | None => _ end] =>
             lazymatch o with
             | nth_error _ _ => destruct o
             | prev _ _ => destruct o
             end
         end;
  repeat match goal with
         | |- context [TokenType_eqb ?a ?b] => destruct (TokenType_eqb a b)
         end; simpl; auto.

(** The colon issues of [checkMalformations], each reported once: one
    [UNEXPECTED_COLON_NO_PARAM] per [COLON] token not preceded by a
    [PARAMETER_NAME] or [SPREAD] token, one [DOUBLE_COLON] per [COLON]
    followed by a [COLON], one [UNEXPECTED_SEMICOLON_AFTER_COLON] per
    [COLON] followed by a [SEMICOLON], one
    [UNEXPECTED_CLOSING_BRACE_AFTER_COLON] per [COLON] followed by a
    [CLOSE_BRACE], and one [PARAMETER_EMPTY_TYPE_AFTER_COLON] when the
    last token is a [COLON]. *)
Theorem colon_issues : forall toks l, checkMalformations toks = Some l ->
  filter (has_code UNEXPECTED_COLON_NO_PARAM) l =
    repeat (Coded UNEXPECTED_COLON_NO_PARAM NoArg) (colons_without_name toks) /\
  filter (has_code DOUBLE_COLON) l =
    repeat (Coded DOUBLE_COLON NoArg) (colons_before COLON toks) /\
  filter (has_code UNEXPECTED_SEMICOLON_AFTER_COLON) l =
    repeat (Coded UNEXPECTED_SEMICOLON_AFTER_COLON NoArg) (colons_before SEMICOLON toks) /\
  filter (has_code UNEXPECTED_CLOSING_BRACE_AFTER_COLON) l =
    repeat (Coded UNEXPECTED_CLOSING_BRACE_AFTER_COLON NoArg)
           (colons_before CLOSE_BRACE toks) /\
  filter (has_code PARAMETER_EMPTY_TYPE_AFTER_COLON) l =
    repeat (Coded PARAMETER_EMPTY_TYPE_AFTER_COLON NoArg) (trailing_colons toks).
Proof.
  intros toks l E. rewrite checkMalformations_unfold in E.
  destruct (existsb structural_hit toks); [discriminate|]. injection E as <-.
  change (filter (has_code ?c) (issues ?x)) with (filt c x).
  split; [|split; [|split; [|split]]].
  - rewrite unexpected_keep_gen, empty_keep_gen,
      unexpected_fast_filt, empty_fast_keep_gen, brace_keep_gen by reflexivity.
    rewrite filt_init, app_nil_l. apply count_by_window; piece.
  - rewrite unexpected_keep_gen, empty_keep_gen,
      unexpected_fast_filt, empty_fast_keep_gen, brace_keep_gen by reflexivity.
    rewrite filt_init, app_nil_l. apply count_by_window; piece.
  - rewrite unexpected_filt, empty_keep_gen,
      unexpected_fast_keep_gen, empty_fast_keep_gen, brace_keep_gen by reflexivity.
    rewrite filt_init, app_nil_l. apply count_by_window; piece.
  - rewrite unexpected_filt, empty_keep_gen,
      unexpected_fast_keep_gen, empty_fast_keep_gen, brace_keep_gen by reflexivity.
    rewrite filt_init, app_nil_l. apply count_by_window; piece.
  - rewrite unexpected_filt, empty_keep_gen,
      unexpected_fast_keep_gen, empty_fast_keep_gen, brace_keep_gen by reflexivity.
    rewrite filt_init, app_nil_l. apply count_by_window; piece.
Qed.

Definition colon_toks : list Token :=
  [mkToken COLON ":" 0; mkToken COLON ":" 1; mkToken SEMICOLON ";" 2;
   mkToken PARAMETER_NAME "a" 3; mkToken COLON ":" 4].

Definition colon_result : list MalformationIssue :=
  Eval vm_compute in
    match checkMalformations colon_toks with Some l => l | None => [] end.

(** Witness of [colon_issues] on the tokens [: : ; a :]. *)
Lemma colon_issues_witness :
  checkMalformations colon_toks = Some colon_result /\
  (filter (has_code UNEXPECTED_COLON_NO_PARAM) colon_result =
     repeat (Coded UNEXPECTED_COLON_NO_PARAM NoArg) (colons_without_name colon_toks) /\
   filter (has_code DOUBLE_COLON) colon_result =
     repeat (Coded DOUBLE_COLON NoArg) (colons_before COLON colon_toks) /\
   filter (has_code UNEXPECTED_SEMICOLON_AFTER_COLON) colon_result =
     repeat (Coded UNEXPECTED_SEMICOLON_AFTER_COLON NoArg)
            (colons_before SEMICOLON colon_toks) /\
   filter (has_code UNEXPECTED_CLOSING_BRACE_AFTER_COLON) colon_result =
     repeat (Coded UNEXPECTED_CLOSING_BRACE_AFTER_COLON NoArg)
            (colons_before CLOSE_BRACE colon_toks) /\
   filter (has_code PARAMETER_EMPTY_TYPE_AFTER_COLON) colon_result =
     repeat (Coded PARAMETER_EMPTY_TYPE_AFTER_COLON NoArg) (trailing_colons colon_toks)).
Proof.
  assert (E : checkMalformations colon_toks = Some colon_result)
    by (vm_compute; reflexivity).
  exact (conj E (colon_issues _ _ E)).
Defined.

(** X7. The structural loop of [checkStructuralIssuesFast] reports
    nothing: [checkMalformations] throws (a [TypeError] from [addIssue],
    whose two codes are not members of [WarningCode]) exactly when some
    token is a [PARAMETER_NAME] containing a '*' or a [TYPE] containing a
    '/', and otherwise returns. So the tokens of [a : Text/Blob] make it
    throw. *)
Theorem structural_issues :
  (forall toks, checkMalformations toks = None <->
     exists t, In t toks /\
       (is_tok t PARAMETER_NAME && includes_char (value t) 42 = true \/
        is_tok t TYPE && includes_char (value t) 47 = true)) /\
  checkMalformations (tokenize "a : Text/Blob") = None.
Proof.
  split; [|vm_compute; reflexivity].
  intros toks. rewrite checkMalformations_returns, existsb_exists.
  unfold structural_hit. split; intros [t [Ht H]]; exists t; split; auto.
  - apply orb_true_iff in H. exact H.
  - apply orb_true_iff. exact H.
Qed.

End MalformationCensus.

(* ------------------------------------------------------------------ *)
(** ** Identifier tokens, and the unreachable [*] case of the structural loop *)

Module IdentSpec.
Import Tokenizer Types Ref.
Local Open Scope list_scope.

Fixpoint all_ident (s : string) : bool :=
  match s with
  | EmptyString => true
  | String c r => isIdentifierChar c && all_ident r
  end.

Definition idents (st : State) : Prop :=
  Forall (fun t => type t = PARAMETER_NAME \/ type t = TYPE -> all_ident (value t) = true)
         (tokens st).

Lemma substring_zero : forall s p, String.substring p 0 s = EmptyString.
Proof. induction s as [|a r IH]; intros [|p]; simpl; auto. Qed.

Lemma substring_step : forall s p m c, String.get p s = Some c ->
  String.substring p (S m) s = String c (String.substring (S p) m s).
Proof.
  induction s as [|a r IH]; intros p m c H; [discriminate|].
  destruct p as [|p]; simpl in *.
  - injection H as <-. reflexivity.
  - apply IH. exact H.
Qed.

Lemma skip_ident : forall s f p,
  all_ident (String.substring p (skipIdentifierChars s f p - p) s) = true.
Proof.
  intros s f; induction f as [|f IH]; intros p; cbn [skipIdentifierChars].
  { rewrite Nat.sub_diag, substring_zero. reflexivity. }
  destruct (p <? String.length s); cbn [andb];
    [|rewrite Nat.sub_diag, substring_zero; reflexivity].
  destruct (char_at s p) as [c|] eqn:G; [|rewrite Nat.sub_diag, substring_zero; reflexivity].
  destruct (isIdentifierChar c) eqn:I; [|rewrite Nat.sub_diag, substring_zero; reflexivity].
  pose proof (TokenizerFacts.skipIdentifierChars_ge s f (S p)) as Ge.
  replace (skipIdentifierChars s f (S p) - p)
    with (S (skipIdentifierChars s f (S p) - S p)) by lia.
  rewrite (substring_step s p _ c G). cbn [all_ident]. rewrite I. apply IH.
Qed.

Lemma idents_add : forall st ty v p, idents st ->
  (ty = PARAMETER_NAME \/ ty = TYPE -> all_ident v = true) ->
  idents (addToken st ty v p).
Proof.
  intros st ty v p H A. unfold idents, addToken. cbn [tokens].
  apply Forall_app. split; [exact H|]. constructor; [exact A | constructor].
Qed.

Lemma idents_scanIdentifier : forall st, idents st -> idents (scanIdentifier st).
Proof.
  intros st H. unfold scanIdentifier.
  destruct (_ && _ && _ && _ && _).
  - apply idents_add; [exact H | intros [E|E]; discriminate E].
  - destruct (_ <? _); [|exact H]. apply idents_add; [exact H|]. intros _.
    unfold js_substring. apply skip_ident.
Qed.

Lemma idents_scanToken : forall st, idents st -> idents (scanToken st).
Proof.
  intros st H. unfold scanToken.
  destruct (char_at _ _) as [c|]; [|apply idents_scanIdentifier; exact H].
  destruct (is_tok_space c); [exact H|].
  destruct (_ && _ && _).
  { apply idents_add; [exact H | intros [E|E]; discriminate E]. }
  destruct (_ && _ && _).
  { apply idents_add; [exact H | intros [E|E]; discriminate E]. }
  destruct (single_char_token (code c)) as [ty|] eqn:E.
  - destruct (TokenizerSpec.single_char_not_name _ _ E) as [N1 N2].
    apply idents_add; [exact H | intros [X|X]; contradiction].
  - apply idents_scanIdentifier. exact H.
Qed.

Lemma tokenize_idents : forall s t, In t (tokenize s) ->
  type t = PARAMETER_NAME \/ type t = TYPE -> all_ident (value t) = true.
Proof.
  intros s.
  assert (H : idents (run (String.length s) (mkState s 0 [] None))).
  { apply (TokenizerSpec.run_keeps idents).
    - intros st Hs _. apply idents_scanToken. exact Hs.
    - constructor. }
  unfold idents in H. rewrite Forall_forall in H. exact H.
Qed.

(** Every [PARAMETER_NAME] or [TYPE] token of [tokenize s] is made of
    identifier characters only: ASCII letters and digits, '_', '-', '$',
    '.', '/', '[', ']', '<', '>' and characters above code 127. *)
Theorem tokenize_identifier_tokens : forall s t,
  In t (tokenize s) -> type t = PARAMETER_NAME \/ type t = TYPE ->
  forall i c, String.get i (value t) = Some c -> isIdentifierChar c = true.
Proof.
  intros s t Ht Ty. pose proof (tokenize_idents s t Ht Ty) as A.
  clear Ht Ty. induction (value t) as [|a r IH]; intros i c G; [destruct i; discriminate|].
  cbn [all_ident] in A. apply andb_true_iff in A as [A1 A2].
  destruct i as [|i]; cbn in G.
  - injection G as <-. exact A1.
  - exact (IH A2 i c G).
Qed.

Lemma all_ident_no_star : forall v, all_ident v = true -> includes_char v 42 = false.
Proof.
  induction v as [|a r IH]; intros A; [reflexivity|].
  cbn [all_ident] in A. apply andb_true_iff in A as [A1 A2]. cbn [includes_char].
  rewrite (IH A2), orb_false_r.
  destruct (char_is a 42) eqn:E; [|reflexivity].
  apply TokenizerSpec.char_is_eq in E; [|lia]. subst a. discriminate A1.
Qed.

(** On the tokens of any string, [checkMalformations] throws exactly when
    a [TYPE] token contains a '/': its other case, a [PARAMETER_NAME]
    containing a '*', never arises. *)
Lemma tokens_throw : forall s,
  MalformationChecker.checkMalformations (tokenize s) = None <->
  exists t, In t (tokenize s) /\ type t = TYPE /\ includes_char (value t) 47 = true.
Proof.
  intros s. rewrite MalformationFacts.checkMalformations_returns, existsb_exists.
  unfold structural_hit, is_tok. split.
  - intros [t [Ht H]]. exists t. split; [exact Ht|].
    apply orb_true_iff in H as [H|H]; apply andb_true_iff in H as [H1 H2].
    + assert (T : type t = PARAMETER_NAME)
        by (destruct (type t); try discriminate H1; reflexivity).
      rewrite (all_ident_no_star _ (tokenize_idents s t Ht (or_introl T))) in H2.
      discriminate H2.
    + split; [|exact H2]. destruct (type t); try discriminate H1; reflexivity.
  - intros [t [Ht [T H]]]. exists t. split; [exact Ht|].
    rewrite T, H, orb_true_r. reflexivity.
Qed.

Lemma parse_variant_throw : forall self w,
  snd (Parser.parse_variant self w) = None ->
  exists p, MalformationChecker.paramString
              (MalformationChecker.checkSyntaxStructure (trim w)) = Some p /\
    MalformationChecker.checkMalformations
      (tokenize (Preprocess.preprocessParameterString p)) = None.
Proof.
  intros self w. unfold MalformationChecker.checkSyntaxStructure, Parser.parse_variant.
  cbv zeta. destruct (negb _); [discriminate|].
  destruct (MalformationChecker.scan_structure (trim w) 0 (-1) (-1) 0) as [ps pe] eqn:SS.
  rewrite StructureSpec.scan_structure_parens in SS. rewrite SS.
  destruct (ps =? -1)%Z; cbn [orb]; [discriminate|].
  destruct (pe =? -1)%Z; [discriminate|]. cbn [MalformationChecker.paramString].
  destruct (negb _); [discriminate|].
  intros H. eexists. split; [reflexivity|]. revert H.
  unfold Tokenizer.tokenize_on, MalformationChecker.checkMalformations,
    MalformationChecker.checkMalformations_on, ParameterChecker.checkParameters_on,
    tokenize, Tokenizer.tokenize_on, Parser.preprocessParameterString.
  destruct (MalformationChecker.checkStructuralIssuesFast _ _); [|reflexivity].
  destruct (ParameterChecker.buildParametersFast _ _). discriminate.
Qed.

Lemma parse_variants_throw : forall vs self, snd (Parser.parse_variants self vs) = None ->
  exists self' w, In w vs /\ snd (Parser.parse_variant self' w) = None.
Proof.
  induction vs as [|w vs IH]; intros self; [discriminate|].
  cbn [Parser.parse_variants].
  destruct (Parser.parse_variant self w) as [t [r|]] eqn:E1.
  - destruct (Parser.parse_variants t vs) as [u [q|]] eqn:E2; [discriminate|].
    intros _. destruct (IH t) as [self' [w' [Hw Hn]]]; [rewrite E2; reflexivity|].
    exists self', w'. split; [right; exact Hw | exact Hn].
  - intros _. exists self, w. split; [left; reflexivity | rewrite E1; reflexivity].
Qed.

(** X9. The '*' case of [checkStructuralIssuesFast] is unreachable from
    [parseSyntax]: the tokenizer never puts a '*' inside a
    [PARAMETER_NAME] token, so [checkMalformations] on the tokens of a
    string throws exactly when one of its [TYPE] tokens contains a '/',
    and [parseSyntax] throws only when the parameter string
    [checkSyntaxStructure] finds in some [<br/>]-separated variant
    tokenizes, after preprocessing, to a [TYPE] token containing a '/'. *)
Theorem parseSyntax_throws_only_on_slash_type :
  (forall s, MalformationChecker.checkMalformations (tokenize s) = None <->
     exists t, In t (tokenize s) /\ type t = TYPE /\ includes_char (value t) 47 = true) /\
  (forall syntax, Parser.parseSyntax syntax = None ->
     exists w p t, In w (Parser.split syntax "<br/>") /\
       MalformationChecker.paramString
         (MalformationChecker.checkSyntaxStructure (trim w)) = Some p /\
       In t (tokenize (Preprocess.preprocessParameterString p)) /\
       type t = TYPE /\ includes_char (value t) 47 = true).
Proof.
  split; [exact tokens_throw|].
  intros syntax. unfold Parser.parseSyntax, Parser.parseSyntax_on.
  destruct (negb _); [discriminate|].
  intros H. destruct (parse_variants_throw _ _ H) as [self' [w [Hw Hn]]].
  destruct (parse_variant_throw _ _ Hn) as [p [Hp Hm]].
  apply tokens_throw in Hm as [t Ht].
  exists w, p, t. split; [exact Hw|]. split; [exact Hp | exact Ht].
Qed.

(** Witness of [tokenize_identifier_tokens]: the first character of the TYPE
    token "Text" of "a : Text; *". *)
Lemma tokenize_identifier_tokens_witness : isIdentifierChar "T"%char = true.
Proof.
  apply (tokenize_identifier_tokens "a : Text; *" (mkToken TYPE "Text" 4)) with (i := 0).
  - vm_compute. right. right. left. reflexivity.
  - right. reflexivity.
  - reflexivity.
Defined.

(** Witness of [parseSyntax_throws_only_on_slash_type] on
    "f(a : Text/Blob)". *)
Lemma parseSyntax_throws_only_on_slash_type_witness :
  Parser.parseSyntax "f(a : Text/Blob)" = None /\
  exists w p t, In w (Parser.split "f(a : Text/Blob)" "<br/>") /\
    MalformationChecker.paramString
      (MalformationChecker.checkSyntaxStructure (trim w)) = Some p /\
    In t (tokenize (Preprocess.preprocessParameterString p)) /\
    type t = TYPE /\ includes_char (value t) 47 = true.
Proof.
  assert (E : Parser.parseSyntax "f(a : Text/Blob)" = None) by (vm_compute; reflexivity).
  exact (conj E (proj2 parseSyntax_throws_only_on_slash_type _ E)).
Defined.

End IdentSpec.

(* ------------------------------------------------------------------ *)
(** ** Where the parameter section is found *)

Module ScanSpec.
Import Types MalformationChecker Parser.

Fixpoint count_char (s : string) (n : nat) : nat :=
  match s with
  | EmptyString => 0
  | String c r => (if char_is c n then 1 else 0) + count_char r n
  end.

(** Opening minus closing parentheses among the first [n] characters. *)
Definition paren_balance (s : string) (n : nat) : Z :=
  (Z.of_nat (count_char (String.substring 0 n s) 40)
   - Z.of_nat (count_char (String.substring 0 n s) 41))%Z.

Definition paren_delta (c : ascii) : Z :=
  if char_is c 40 then 1%Z else if char_is c 41 then (-1)%Z else 0%Z.

Lemma balance_zero : forall s, paren_balance s 0 = 0%Z.
Proof. intros [|c r]; reflexivity. Qed.

Lemma balance_cons : forall c r n,
  paren_balance (String c r) (S n) = (paren_delta c + paren_balance r n)%Z.
Proof.
  intros c r n. unfold paren_balance, paren_delta. cbn [String.substring count_char].
  unfold char_is. destruct (Nat.eqb_spec (code c) 40), (Nat.eqb_spec (code c) 41); lia.
Qed.

Ltac close_char H :=
  injection H as <-; discriminate.

(** After the opening parenthesis: [paramEnd] becomes the first [')'] at
    which the running depth comes back to zero. *)
Lemma scan_open : forall r i ps pe d, ps <> (-1)%Z ->
  (forall j, String.get j r = Some ")"%char -> (d + paren_balance r (S j))%Z = 0%Z ->
     (forall j', j' < j -> String.get j' r = Some ")"%char ->
        (d + paren_balance r (S j'))%Z <> 0%Z) ->
     scan_parens r i ps pe d = (ps, Z.of_nat (i + j))) /\
  ((forall j, String.get j r = Some ")"%char -> (d + paren_balance r (S j))%Z <> 0%Z) ->
     scan_parens r i ps pe d = (ps, pe)).
Proof.
  induction r as [|c r IH]; intros i ps pe d Hps.
  { split; [intros [|j]; discriminate | intros _; reflexivity]. }
  cbn [scan_parens].
  assert (Gs : forall j, String.get (S j) (String c r) = String.get j r) by reflexivity.
  destruct (char_is c 40) eqn:E40.
  - replace (if (ps =? -1)%Z then Z.of_nat (S i) else ps) with ps
      by (destruct (Z.eqb_spec ps (-1)); [contradiction | reflexivity]).
    assert (Dc : paren_delta c = 1%Z) by (unfold paren_delta; rewrite E40; reflexivity).
    destruct (IH (S i) ps pe (d + 1)%Z Hps) as [IH1 IH2]. split.
    + intros [|j] Gj Bj Mj.
      { injection Gj as ->. discriminate E40. }
      rewrite IH1 with (j := j).
      * f_equal. lia.
      * exact Gj.
      * rewrite balance_cons, Dc in Bj. lia.
      * intros j' Lj Gj'. specialize (Mj (S j') ltac:(lia) Gj').
        rewrite balance_cons, Dc in Mj. lia.
    + intros N. apply IH2. intros j Gj. specialize (N (S j) Gj).
      rewrite balance_cons, Dc in N. lia.
  - destruct (char_is c 41) eqn:E41.
    + assert (Dc : paren_delta c = (-1)%Z)
        by (unfold paren_delta; rewrite E40, E41; reflexivity).
      assert (G0 : String.get 0 (String c r) = Some ")"%char).
      { apply TokenizerSpec.char_is_eq in E41; [|lia]. subst c. reflexivity. }
      assert (B0 : paren_balance (String c r) 1 = (-1)%Z).
      { rewrite balance_cons, Dc, balance_zero. reflexivity. }
      replace (negb (ps =? -1)%Z) with true
        by (destruct (Z.eqb_spec ps (-1)); [contradiction | reflexivity]).
      rewrite andb_true_r. destruct (Z.eqb_spec (d - 1) 0).
      * split.
        -- intros [|j] Gj Bj Mj.
           ++ f_equal. lia.
           ++ exfalso. apply (Mj 0); [lia | exact G0 | rewrite B0; lia].
        -- intros N. exfalso. apply (N 0 G0). rewrite B0. lia.
      * destruct (IH (S i) ps pe (d - 1)%Z Hps) as [IH1 IH2]. split.
        -- intros [|j] Gj Bj Mj.
           ++ rewrite B0 in Bj. lia.
           ++ rewrite IH1 with (j := j).
              ** f_equal. lia.
              ** exact Gj.
              ** rewrite balance_cons, Dc in Bj. lia.
              ** intros j' Lj Gj'. specialize (Mj (S j') ltac:(lia) Gj').
                 rewrite balance_cons, Dc in Mj. lia.
        -- intros N. apply IH2. intros j Gj. specialize (N (S j) Gj).
           rewrite balance_cons, Dc in N. lia.
    + assert (Dc : paren_delta c = 0%Z)
        by (unfold paren_delta; rewrite E40, E41; reflexivity).
      destruct (IH (S i) ps pe d Hps) as [IH1 IH2]. split.
      * intros [|j] Gj Bj Mj.
        { injection Gj as ->. discriminate E41. }
        rewrite IH1 with (j := j).
        -- f_equal. lia.
        -- exact Gj.
        -- rewrite balance_cons, Dc in Bj. lia.
        -- intros j' Lj Gj'. specialize (Mj (S j') ltac:(lia) Gj').
           rewrite balance_cons, Dc in Mj. lia.
      * intros N. apply IH2. intros j Gj. specialize (N (S j) Gj).
        rewrite balance_cons, Dc in N. lia.
Qed.

(** Before the first opening parenthesis, nothing is recorded. *)
Lemma scan_no_open : forall r i pe d, indexOf_char r 40 = None ->
  scan_parens r i (-1) pe d = ((-1)%Z, pe).
Proof.
  induction r as [|c r IH]; intros i pe d H; [reflexivity|].
  cbn [indexOf_char] in H. cbn [scan_parens].
  destruct (char_is c 40); [discriminate H|].
  destruct (indexOf_char r 40); [discriminate H|].
  destruct (char_is c 41); [rewrite andb_false_r|]; apply IH; reflexivity.
Qed.

Lemma scan_first_open : forall r i pe d k, indexOf_char r 40 = Some k ->
  (forall j, k < j -> String.get j r = Some ")"%char ->
     (d + paren_balance r (S j))%Z = 0%Z ->
     (forall j', k < j' -> j' < j -> String.get j' r = Some ")"%char ->
        (d + paren_balance r (S j'))%Z <> 0%Z) ->
     scan_parens r i (-1) pe d = (Z.of_nat (i + S k), Z.of_nat (i + j))) /\
  ((forall j, k < j -> String.get j r = Some ")"%char ->
      (d + paren_balance r (S j))%Z <> 0%Z) ->
     scan_parens r i (-1) pe d = (Z.of_nat (i + S k), pe)).
Proof.
  induction r as [|c r IH]; intros i pe d k H; [discriminate H|].
  cbn [indexOf_char] in H.
  destruct (char_is c 40) eqn:E40.
  - injection H as <-. cbn [scan_parens]. rewrite E40, Z.eqb_refl.
    assert (Dc : paren_delta c = 1%Z) by (unfold paren_delta; rewrite E40; reflexivity).
    destruct (scan_open r (S i) (Z.of_nat (S i)) pe (d + 1)%Z ltac:(lia)) as [A1 A2].
    replace (Z.of_nat (i + 1)) with (Z.of_nat (S i)) by (f_equal; lia). split.
    + intros [|j] Lj Gj Bj Mj; [lia|].
      rewrite A1 with (j := j).
      * f_equal. lia.
      * exact Gj.
      * rewrite balance_cons, Dc in Bj. lia.
      * intros j' Lj' Gj'. specialize (Mj (S j') ltac:(lia) ltac:(lia) Gj').
        rewrite balance_cons, Dc in Mj. lia.
    + intros N. apply A2. intros j Gj. specialize (N (S j) ltac:(lia) Gj).
      rewrite balance_cons, Dc in N. lia.
  - destruct (indexOf_char r 40) as [k0|] eqn:Ek; [|discriminate H].
    injection H as <-.
    assert (Step : forall d', paren_delta c = (d' - d)%Z ->
      scan_parens r (S i) (-1) pe d' = scan_parens (String c r) i (-1) pe d ->
      (forall j, S k0 < j -> String.get j (String c r) = Some ")"%char ->
         (d + paren_balance (String c r) (S j))%Z = 0%Z ->
         (forall j', S k0 < j' -> j' < j -> String.get j' (String c r) = Some ")"%char ->
            (d + paren_balance (String c r) (S j'))%Z <> 0%Z) ->
         scan_parens (String c r) i (-1) pe d = (Z.of_nat (i + S (S k0)), Z.of_nat (i + j))) /\
      ((forall j, S k0 < j -> String.get j (String c r) = Some ")"%char ->
          (d + paren_balance (String c r) (S j))%Z <> 0%Z) ->
         scan_parens (String c r) i (-1) pe d = (Z.of_nat (i + S (S k0)), pe))).
    { intros d' Dc Sc. rewrite <- Sc.
      destruct (IH (S i) pe d' k0 eq_refl) as [I1 I2]. split.
      - intros [|j] Lj Gj Bj Mj; [lia|].
        rewrite I1 with (j := j).
        + f_equal; f_equal; lia.
        + lia.
        + exact Gj.
        + rewrite balance_cons, Dc in Bj. lia.
        + intros j' Lj' Lj'' Gj'. specialize (Mj (S j') ltac:(lia) ltac:(lia) Gj').
          rewrite balance_cons, Dc in Mj. lia.
      - intros N. rewrite I2; [f_equal; f_equal; lia|].
        intros j Lj Gj. specialize (N (S j) ltac:(lia) Gj).
        rewrite balance_cons, Dc in N. lia. }
    destruct (char_is c 41) eqn:E41.
    + apply (Step (d - 1)%Z).
      * unfold paren_delta. rewrite E40, E41. lia.
      * cbn [scan_parens]. rewrite E40, E41, andb_false_r. reflexivity.
    + apply (Step d).
      * unfold paren_delta. rewrite E40, E41. lia.
      * cbn [scan_parens]. rewrite E40, E41. reflexivity.
Qed.

(** [checkSyntaxStructure]: with no '(' the string is a property (no
    parameter section, no issue). Otherwise the section starts after the
    first '(' and ends at the first later ')' at which the count of '('
    minus ')' from the start of the string, that ')' included, is zero;
    the result is the trimmed text in between and the index of that ')'.
    Without such a ')' the result is [MISSING_CLOSING_PARENTHESIS]. *)
Theorem checkSyntaxStructure_sections : forall s,
  (indexOf_char s 40 = None -> checkSyntaxStructure s = mkStructure None (-1) []) /\
  (forall k, indexOf_char s 40 = Some k ->
    (forall j, k < j -> String.get j s = Some ")"%char -> paren_balance s (S j) = 0%Z ->
       (forall j', k < j' -> j' < j -> String.get j' s = Some ")"%char ->
          paren_balance s (S j') <> 0%Z) ->
       checkSyntaxStructure s =
         mkStructure (Some (trim (js_substring s (S k) j))) (Z.of_nat j) []) /\
    ((forall j, k < j -> String.get j s = Some ")"%char -> paren_balance s (S j) <> 0%Z) ->
       checkSyntaxStructure s =
         mkStructure None (-1) [Coded MISSING_CLOSING_PARENTHESIS NoArg])).
Proof.
  intros s. unfold checkSyntaxStructure. rewrite StructureSpec.scan_structure_parens.
  split.
  { intros H. rewrite (scan_no_open s 0 (-1) 0 H). reflexivity. }
  intros k H. destruct (scan_first_open s 0 (-1) 0 k H) as [A1 A2]. split.
  - intros j Lj Gj Bj Mj. rewrite (A1 j Lj Gj Bj Mj).
    destruct (Z.eqb_spec (Z.of_nat (0 + S k)) (-1)); [lia|].
    destruct (Z.eqb_spec (Z.of_nat (0 + j)) (-1)); [lia|].
    rewrite !Nat2Z.id. reflexivity.
  - intros N. rewrite (A2 N).
    destruct (Z.eqb_spec (Z.of_nat (0 + S k)) (-1)); [lia|]. reflexivity.
Qed.

(** A ')' before the first '(' throws the depth off: ")(a)" is reported
    as missing its closing parenthesis, while "f(a(b)) : T" has the
    section "a(b)" ending at index 6. *)
Lemma checkSyntaxStructure_sections_witness :
  checkSyntaxStructure ")(a)" =
    mkStructure None (-1) [Coded MISSING_CLOSING_PARENTHESIS NoArg] /\
  checkSyntaxStructure "f(a(b)) : T" = mkStructure (Some "a(b)") 6 [].
Proof.
  split.
  - apply (proj2 (proj2 (checkSyntaxStructure_sections ")(a)") 1 eq_refl)).
    intros j Lj Gj. destruct j as [|[|[|[|j]]]]; try lia.
    + discriminate Gj.
    + vm_compute. discriminate.
    + destruct j; discriminate Gj.
  - apply (proj1 (proj2 (checkSyntaxStructure_sections "f(a(b)) : T") 1 eq_refl) 6).
    + lia.
    + reflexivity.
    + reflexivity.
    + intros j' L1 L2 G. destruct j' as [|[|[|[|[|[|j']]]]]]; try lia; try discriminate G.
      vm_compute. discriminate.
Defined.

End ScanSpec.

(* ------------------------------------------------------------------ *)
(** ** Preprocessing a parameter string without asterisks *)

Module PreprocessSpec.
Import Preprocess.

Lemma prefix_head : forall a p c r,
  String.prefix (String a p) (String c r) = true -> a = c /\ String.prefix p r = true.
Proof.
  intros a p c r H. cbn [String.prefix] in H.
  destruct (ascii_dec a c); [split; assumption | discriminate H].
Qed.

Lemma prefix_escaped : forall c r,
  String.prefix escaped_asterisk_text (String c r) = true -> includes_char r 42 = true.
Proof.
  intros c r H. apply prefix_head in H as [_ H].
  destruct r as [|d r]; [discriminate H|].
  apply prefix_head in H as [<- _]. reflexivity.
Qed.

Lemma replace_escaped_id : forall repl f s, includes_char s 42 = false ->
  replace_lit escaped_asterisk_text repl f s = s.
Proof.
  intros repl f; induction f as [|f IH]; intros s H; [reflexivity|].
  destruct s as [|c r]; [reflexivity|]. cbn [replace_lit].
  cbn [includes_char] in H. apply orb_false_iff in H as [_ H].
  destruct (String.prefix escaped_asterisk_text (String c r)) eqn:E.
  - rewrite (prefix_escaped c r E) in H. discriminate H.
  - rewrite (IH r H). reflexivity.
Qed.

Lemma replace_star_pairs_id : forall P f s, includes_char s 42 = false ->
  replace_star_pairs P f s = s.
Proof.
  intros P f; induction f as [|f IH]; intros s H; [reflexivity|].
  destruct s as [|c r]; [reflexivity|]. cbn [replace_star_pairs].
  cbn [includes_char] in H. apply orb_false_iff in H as [H1 H].
  rewrite H1, (IH r H). reflexivity.
Qed.

Lemma replace_placeholder_id : forall repl f s, includes_char s 95 = false ->
  replace_lit placeholder repl f s = s.
Proof.
  intros repl f; induction f as [|f IH]; intros s H; [reflexivity|].
  destruct s as [|c r]; [reflexivity|]. cbn [replace_lit].
  cbn [includes_char] in H. apply orb_false_iff in H as [H1 H].
  destruct (String.prefix placeholder (String c r)) eqn:E.
  - apply prefix_head in E as [<- _]. discriminate H1.
  - rewrite (IH r H). reflexivity.
Qed.

(** A parameter string with no '*' goes through preprocessing unchanged,
    except that each occurrence of the placeholder text
    [___ESCAPED_ASTERISK___] is turned into an escaped asterisk [\*];
    with no '_' either, it is returned as is. *)
Theorem preprocess_without_asterisk : forall s, includes_char s 42 = false ->
  preprocessParameterString s =
    replace_lit placeholder escaped_asterisk_text (String.length s) s /\
  (includes_char s 95 = false -> preprocessParameterString s = s).
Proof.
  intros s H.
  assert (E : preprocessParameterString s =
              replace_lit placeholder escaped_asterisk_text (String.length s) s).
  { unfold preprocessParameterString. cbv zeta.
    rewrite (replace_escaped_id _ _ s H), !(replace_star_pairs_id _ _ s H). reflexivity. }
  split; [exact E|]. intros H'. rewrite E. apply replace_placeholder_id. exact H'.
Qed.

Lemma preprocess_without_asterisk_witness :
  preprocessParameterString "a___ESCAPED_ASTERISK___ : Text" = "a\* : Text" /\
  preprocessParameterString "a : Text; b" = "a : Text; b".
Proof.
  split.
  - rewrite (proj1 (preprocess_without_asterisk "a___ESCAPED_ASTERISK___ : Text" eq_refl)).
    vm_compute. reflexivity.
  - exact (proj2 (preprocess_without_asterisk "a : Text; b" eq_refl) eq_refl).
Defined.

End PreprocessSpec.

(* ------------------------------------------------------------------ *)
(** ** The return type read after the parameter section *)

Module ReturnSpec.
Import Parser.

Definition R (s : string) : string := string_of_list_ascii (rev (list_ascii_of_string s)).

Definition head_not_space (s : string) : Prop :=
  match s with EmptyString => True | String c _ => is_js_space c = false end.

Lemma list_of_app : forall a b,
  list_ascii_of_string (a ++ b) = (list_ascii_of_string a ++ list_ascii_of_string b)%list.
Proof. induction a as [|c a IH]; intros b; simpl; [reflexivity|]. rewrite IH. reflexivity. Qed.

Lemma string_of_app : forall a b,
  string_of_list_ascii (a ++ b)%list = string_of_list_ascii a ++ string_of_list_ascii b.
Proof. induction a as [|c a IH]; intros b; simpl; [reflexivity|]. rewrite IH. reflexivity. Qed.

Lemma R_R : forall s, R (R s) = s.
Proof.
  intros s. unfold R. rewrite list_ascii_of_string_of_list_ascii, rev_involutive.
  apply string_of_list_ascii_of_string.
Qed.

Lemma R_app : forall a b, R (a ++ b) = R b ++ R a.
Proof. intros a b. unfold R. rewrite list_of_app, rev_app_distr, string_of_app. reflexivity. Qed.

Lemma R_cons : forall c r, R (String c r) = R r ++ String c EmptyString.
Proof. intros c r. exact (R_app (String c EmptyString) r). Qed.

Lemma trim_start_idem : forall s, trim_start (trim_start s) = trim_start s.
Proof.
  induction s as [|c r IH]; [reflexivity|]. cbn [trim_start].
  destruct (is_js_space c) eqn:E; [exact IH|]. cbn [trim_start]. rewrite E. reflexivity.
Qed.

Lemma trim_start_head : forall s, head_not_space (trim_start s).
Proof.
  induction s as [|c r IH]; [exact I|]. cbn [trim_start].
  destruct (is_js_space c) eqn:E; [exact IH | exact E].
Qed.

Lemma trim_start_fix : forall s, head_not_space s -> trim_start s = s.
Proof. intros [|c r] H; [reflexivity|]. cbn [head_not_space] in H. cbn. rewrite H. reflexivity. Qed.

Lemma trim_start_suffix : forall s, exists p, s = p ++ trim_start s.
Proof.
  induction s as [|c r [p IH]]; [exists EmptyString; reflexivity|]. cbn [trim_start].
  destruct (is_js_space c).
  - exists (String c p). cbn. rewrite <- IH. reflexivity.
  - exists EmptyString. reflexivity.
Qed.

Lemma trim_end_prefix : forall x, exists q, x = R (trim_start (R x)) ++ q.
Proof.
  intros x. destruct (trim_start_suffix (R x)) as [p E].
  exists (R p). rewrite <- R_app, <- E, R_R. reflexivity.
Qed.

Lemma trim_end_head : forall x, head_not_space x -> head_not_space (R (trim_start (R x))).
Proof.
  intros x H. destruct (trim_end_prefix x) as [q E].
  destruct (R (trim_start (R x))) as [|c r]; [exact I|].
  rewrite E in H. exact H.
Qed.

Lemma trim_R : forall s, trim s = R (trim_start (R (trim_start s))).
Proof. reflexivity. Qed.

(** [String.prototype.trim] is idempotent. *)
Lemma trim_idem : forall s, trim (trim s) = trim s.
Proof.
  intros s. rewrite (trim_R (trim s)).
  rewrite (trim_start_fix (trim s))
    by (rewrite trim_R; apply trim_end_head, trim_start_head).
  rewrite trim_R, R_R, trim_start_idem. reflexivity.
Qed.

Lemma includes_app : forall a b n,
  includes_char (a ++ b) n = includes_char a n || includes_char b n.
Proof.
  induction a as [|c a IH]; intros b n; [reflexivity|].
  cbn [append includes_char]. rewrite IH. apply orb_assoc.
Qed.

Lemma includes_R : forall s n, includes_char (R s) n = includes_char s n.
Proof.
  induction s as [|c r IH]; intros n; [reflexivity|].
  rewrite R_cons, includes_app, IH. cbn [includes_char]. rewrite orb_false_r. apply orb_comm.
Qed.

Lemma includes_trim : forall s n, includes_char s n = false -> includes_char (trim s) n = false.
Proof.
  intros s n H. rewrite trim_R, includes_R.
  destruct (trim_start_suffix (R (trim_start s))) as [p1 E1].
  destruct (trim_start_suffix s) as [p2 E2].
  rewrite E2, includes_app in H. apply orb_false_iff in H as [_ H].
  rewrite <- includes_R, E1, includes_app in H. apply orb_false_iff in H as [_ H]. exact H.
Qed.

Lemma indexOf_none : forall s n, indexOf_char s n = None -> includes_char s n = false.
Proof.
  induction s as [|c r IH]; intros n H; [reflexivity|]. cbn [indexOf_char] in H.
  cbn [includes_char]. destruct (char_is c n); [discriminate H|].
  destruct (indexOf_char r n) eqn:K; [discriminate H|]. apply IH. exact K.
Qed.

Lemma indexOf_some : forall s n i, indexOf_char s n = Some i ->
  includes_char (String.substring 0 i s) n = false.
Proof.
  induction s as [|c r IH]; intros n i H; [discriminate H|]. cbn [indexOf_char] in H.
  destruct (char_is c n) eqn:E.
  - injection H as <-. reflexivity.
  - destruct (indexOf_char r n) as [k|] eqn:K; [|discriminate H]. injection H as <-.
    cbn [String.substring includes_char]. rewrite E. apply IH. exact K.
Qed.

(** A return type read by [parseReturnType] has its name and its type
    trimmed, a name with no ':' in it, and at least one of the two
    present and non-empty. *)
Theorem parseReturnType_fields : forall s k r, parseReturnType s k = Some r ->
  (forall n, rname r = Some n -> trim n = n /\ includes_char n 58 = false) /\
  (forall t, rtype r = Some t -> trim t = t) /\
  ((exists n, rname r = Some n /\ n <> EmptyString) \/
   (exists t, rtype r = Some t /\ t <> EmptyString)).
Proof.
  intros s k r. unfold parseReturnType.
  destruct (String.length s <=? k); [discriminate|].
  destruct (negb _); [discriminate|].
  set (rem := trim (drop k s)).
  set (rt := if startsWith rem "->" then _ else _).
  assert (F : (forall n, rname rt = Some n -> trim n = n /\ includes_char n 58 = false) /\
              (forall t, rtype rt = Some t -> trim t = t)).
  { subst rt. destruct (startsWith rem "->").
    - set (a := trim (drop 2 rem)). destruct (indexOf_char a 58) as [i|] eqn:I;
        cbn [rname rtype]; split; intros x E.
      + injection E as <-. split; [apply trim_idem|]. apply includes_trim, indexOf_some. exact I.
      + injection E as <-. apply trim_idem.
      + injection E as <-. split; [apply trim_idem|]. apply includes_trim, indexOf_none. exact I.
      + discriminate E.
    - destruct (startsWith rem ":"); cbn [rname rtype]; split; intros x E;
        try discriminate E.
      injection E as <-. apply trim_idem. }
  destruct (falsy (rname rt) && falsy (rtype rt)) eqn:B; [discriminate|].
  intros E. injection E as <-. split; [exact (proj1 F)|]. split; [exact (proj2 F)|].
  apply andb_false_iff in B as [B|B].
  - left. destruct (rname rt) as [x|]; [|discriminate B].
    exists x. split; [reflexivity|]. intros Z. subst x. discriminate B.
  - right. destruct (rtype rt) as [x|]; [|discriminate B].
    exists x. split; [reflexivity|]. intros Z. subst x. discriminate B.
Qed.

(** "f() -> : Text" gives an empty name beside the type; "f() -> r : Text"
    gives both. *)
Lemma parseReturnType_fields_witness :
  parseReturnType "f() -> : Text" 3 = Some (mkReturn (Some EmptyString) (Some "Text")) /\
  (forall n, Some EmptyString = Some n -> trim n = n /\ includes_char n 58 = false).
Proof.
  split; [vm_compute; reflexivity|].
  exact (proj1 (parseReturnType_fields "f() -> : Text" 3 _ eq_refl)).
Defined.

End ReturnSpec.

(* ------------------------------------------------------------------ *)
(** ** Case and surrounding white space in the single-type check *)

Module NormalizeSpec.
Import Checker ReturnSpec.

Lemma lower_char_idem : forall c, lower_char (lower_char c) = lower_char c.
Proof.
  intros [b0 b1 b2 b3 b4 b5 b6 b7].
  destruct b0, b1, b2, b3, b4, b5, b6, b7; vm_compute; reflexivity.
Qed.

Lemma space_lower_char : forall c, is_js_space (lower_char c) = is_js_space c.
Proof.
  intros [b0 b1 b2 b3 b4 b5 b6 b7].
  destruct b0, b1, b2, b3, b4, b5, b6, b7; vm_compute; reflexivity.
Qed.

Lemma toLowerCase_idem : forall s, toLowerCase (toLowerCase s) = toLowerCase s.
Proof. induction s as [|c r IH]; [reflexivity|]. cbn. rewrite lower_char_idem, IH. reflexivity. Qed.

Lemma toLowerCase_app : forall a b, toLowerCase (a ++ b) = toLowerCase a ++ toLowerCase b.
Proof. induction a as [|c a IH]; intros b; [reflexivity|]. cbn. rewrite IH. reflexivity. Qed.

Lemma toLowerCase_trim_start : forall s, toLowerCase (trim_start s) = trim_start (toLowerCase s).
Proof.
  induction s as [|c r IH]; [reflexivity|]. cbn [trim_start toLowerCase].
  rewrite space_lower_char. destruct (is_js_space c); [exact IH | reflexivity].
Qed.

Lemma toLowerCase_R : forall s, toLowerCase (R s) = R (toLowerCase s).
Proof.
  induction s as [|c r IH]; [reflexivity|]. cbn [toLowerCase].
  rewrite !R_cons, toLowerCase_app, IH. reflexivity.
Qed.

Lemma toLowerCase_trim : forall s, toLowerCase (trim s) = trim (toLowerCase s).
Proof.
  intros s. rewrite !trim_R, toLowerCase_R, toLowerCase_trim_start, toLowerCase_R,
    toLowerCase_trim_start. reflexivity.
Qed.

Lemma lower_trim_idem : forall s,
  trim (toLowerCase (trim (toLowerCase s))) = trim (toLowerCase s).
Proof. intros s. rewrite toLowerCase_trim, toLowerCase_idem, trim_idem. reflexivity. Qed.

(** The single-type [isTypeValid] ignores case and surrounding white space
    in both of its arguments: normalising them first (lower case, then
    trimmed) does not change the answer. *)
Theorem isTypeValid_single_normalized : forall p a,
  isTypeValid_single (trim (toLowerCase p)) (trim (toLowerCase a)) = isTypeValid_single p a.
Proof. intros p a. unfold isTypeValid_single. rewrite !lower_trim_idem. reflexivity. Qed.

End NormalizeSpec.

(* ------------------------------------------------------------------ *)
(** ** The character-level parser *)

Module OldParserSpec.
Import Types OldParser.

(** No ':', ';', '{', '}' or '*' in [s]. *)
Fixpoint no_special (s : string) : bool :=
  match s with
  | EmptyString => true
  | String c r =>
      negb (char_is c 58 || char_is c 59 || char_is c 123 || char_is c 125 || char_is c 42)
      && no_special r
  end.

Definition head_not_star (r : string) : Prop :=
  match r with String d _ => char_is d 42 = false | EmptyString => True end.

Lemma escaped_pair_false : forall m c d, char_is d 42 = false -> escaped_pair m c d = false.
Proof. intros m c d H. unfold escaped_pair. destruct (state m); rewrite ?H, ?andb_false_r; reflexivity. Qed.

Lemma loop_cons : forall c r m, head_not_star r -> loop (String c r) m = loop r (step m c).
Proof.
  intros c [|d r] m H; [reflexivity|]. cbn [loop]. rewrite escaped_pair_false by exact H.
  reflexivity.
Qed.

Lemma loop_two : forall c d r m, loop (String c (String d r)) m =
  if escaped_pair m c d then loop r (push_marker m) else loop (String d r) (step m c).
Proof. reflexivity. Qed.

Lemma loop_app : forall n q r m, String.length q <= n -> head_not_star r ->
  loop (q ++ r) m = loop r (loop q m).
Proof.
  induction n as [|n IH]; intros q r m L H.
  { destruct q; [reflexivity | cbn in L; lia]. }
  destruct q as [|c [|d q]]; [reflexivity| |].
  - cbn [append]. rewrite loop_cons by exact H. reflexivity.
  - cbn [append]. rewrite !loop_two. cbn [String.length] in L.
    destruct (escaped_pair m c d).
    + apply IH; [lia | exact H].
    + change (String d (q ++ r)) with (String d q ++ r). apply IH; [cbn; lia | exact H].
Qed.

Definition idle (m : Machine) : Prop :=
  name (currentParam m) = EmptyString /\ state m <> IN_TYPE.

Lemma step_plain : forall m c,
  negb (char_is c 58 || char_is c 59 || char_is c 123 || char_is c 125 || char_is c 42) = true ->
  idle m -> idle (step m c) /\ parameters_acc (step m c) = parameters_acc m.
Proof.
  intros m c Hc [Hn Hs].
  destruct (char_is c 58) eqn:E1, (char_is c 59) eqn:E2, (char_is c 123) eqn:E3,
    (char_is c 125) eqn:E4, (char_is c 42) eqn:E5; try discriminate Hc.
  unfold step, idle. destruct (state m) eqn:S; [| | |contradiction];
    rewrite ?E1, ?E2, ?E3, ?E4, ?E5;
    try (destruct (negb (char_is c 32) && negb (char_is c 9)));
    repeat split; cbn; rewrite ?S; auto; discriminate.
Qed.

Lemma loop_plain : forall n m, no_special n = true -> idle m ->
  idle (loop n m) /\ parameters_acc (loop n m) = parameters_acc m.
Proof.
  induction n as [|c r IH]; intros m H I; [split; [exact I | reflexivity]|].
  cbn [no_special] in H. apply andb_true_iff in H as [H1 H2].
  rewrite loop_cons.
  - destruct (step_plain m c H1 I) as [I' P']. destruct (IH _ H2 I') as [I'' P''].
    split; [exact I'' | rewrite P''; exact P'].
  - destruct r as [|d r]; [exact Logic.I|]. cbn [no_special] in H2.
    apply andb_true_iff in H2 as [H2 _]. cbn [head_not_star].
    destruct (char_is d 42); [|reflexivity].
    rewrite !orb_true_r in H2. discriminate H2.
Qed.

Lemma step_semicolon : forall m, idle (step m ";"%char).
Proof.
  intros m.
  assert (A : char_is ";" 123 = false /\ char_is ";" 42 = false /\ char_is ";" 59 = true /\
              char_is ";" 125 = false /\ char_is ";" 58 = false) by (vm_compute; auto).
  destruct A as (A1 & A2 & A3 & A4 & A5).
  unfold step. destruct (state m) eqn:S; rewrite ?A1, ?A2, ?A3, ?A4, ?A5;
    unfold idle, back_state; cbn; split; try reflexivity; rewrite ?S;
    try (destruct (0 <? _)%Z); discriminate.
Qed.

Lemma finish_idle : forall m, idle m ->
  parameters_acc (finishParam (match state m with
                               | IN_TYPE => set_type m (or_unknown (trim (buffer m)))
                               | _ => m end)) = parameters_acc m.
Proof.
  intros m [Hn Hs]. destruct (state m); [| | |contradiction];
    unfold finishParam; rewrite Hn; reflexivity.
Qed.

(** [parseParameters] of the character-level parser, after preprocessing,
    records a parameter only once its name is ended by ':', ';', '{' or
    '}': a parameter string made of a name alone gives no parameter, and
    a last segment after a ';' with none of ':', ';', '{', '}', '*' adds
    nothing. *)
Theorem parse_cleaned_drops_last_name : forall q n, no_special n = true ->
  parse_cleaned n = [] /\
  parse_cleaned (q ++ String ";" n) = parse_cleaned (q ++ ";").
Proof.
  intros q n H.
  assert (HS : head_not_star n).
  { destruct n as [|d r]; [exact I|]. cbn [no_special] in H.
    apply andb_true_iff in H as [H _]. cbn [head_not_star].
    destruct (char_is d 42); [|reflexivity]. rewrite !orb_true_r in H. discriminate H. }
  split.
  - unfold parse_cleaned.
    assert (I0 : idle init) by (split; [reflexivity | discriminate]).
    destruct (loop_plain n init H I0) as [I P].
    rewrite finish_idle by exact I. exact P.
  - unfold parse_cleaned.
    rewrite (loop_app (String.length q) q (String ";" n)) by (lia || exact I || reflexivity).
    rewrite (loop_app (String.length q) q ";") by (lia || exact I || reflexivity).
    rewrite !loop_cons with (c := ";"%char) by (exact HS || exact I || reflexivity).
    pose proof (step_semicolon (loop q init)) as I1.
    destruct (loop_plain n _ H I1) as [I P].
    rewrite finish_idle by exact I. rewrite finish_idle by exact I1. cbn [loop]. exact P.
Qed.

Lemma parse_cleaned_drops_last_name_witness :
  parseParameters "a : Text; b" = [mkParam "a" "Text" false false] /\
  parseParameters "b" = [].
Proof.
  split.
  - unfold parseParameters.
    change (Preprocess.preprocessParameterString "a : Text; b") with ("a : Text" ++ String ";" " b").
    rewrite (proj2 (parse_cleaned_drops_last_name "a : Text" " b" eq_refl)).
    vm_compute. reflexivity.
  - exact (proj1 (parse_cleaned_drops_last_name EmptyString "b" eq_refl)).
Defined.

Lemma parse_variant_old_new : forall v ws,
  snd (Parser.parse_variant Parser.init v) = Some ws ->
  map variant (OldParser.parse_variant v) = map Parser.variant ws /\
  map returnType (OldParser.parse_variant v) = map Parser.returnType ws.
Proof.
  intros v ws. unfold OldParser.parse_variant, Parser.parse_variant. cbv zeta.
  destruct (negb _); [intros F; injection F as <-; split; reflexivity|].
  destruct (Parser.scan_parens _ _ _ _ _) as [ps pe].
  destruct (_ || _); [intros F; injection F as <-; split; reflexivity|].
  destruct (negb _); [intros F; injection F as <-; split; reflexivity|].
  unfold Tokenizer.tokenize_on, MalformationChecker.checkMalformations_on,
         ParameterChecker.checkParameters_on.
  destruct (MalformationChecker.checkStructuralIssuesFast _ _); [|discriminate].
  destruct (ParameterChecker.buildParametersFast _ _) as [pst ps'].
  intros F; injection F as <-. split; reflexivity.
Qed.

Lemma parse_variants_old_new : forall vs self ws,
  snd (Parser.parse_variants self vs) = Some ws ->
  map variant (concat (map OldParser.parse_variant vs)) = map Parser.variant ws /\
  map returnType (concat (map OldParser.parse_variant vs)) = map Parser.returnType ws.
Proof.
  induction vs as [|v vs IH]; intros self ws.
  { intros F; injection F as <-. split; reflexivity. }
  cbn [map concat Parser.parse_variants].
  pose proof (parse_variant_old_new v) as A.
  rewrite (RepeatSpec.parse_variant_snd Parser.init self v) in A.
  destruct (Parser.parse_variant self v) as [t [r|]]; [|discriminate].
  destruct (A r eq_refl) as [A1 A2].
  pose proof (IH t) as B.
  destruct (Parser.parse_variants t vs) as [u [q|]]; [|discriminate].
  destruct (B q eq_refl) as [B1 B2].
  intros F; injection F as <-.
  rewrite !map_app, A1, A2, B1, B2. split; reflexivity.
Qed.

(** X15. Whenever the token-based [parseSyntax] returns, the
    character-level and the token-based [parseSyntax] return the same
    variants, in the same order, with the same return types: they differ
    only in the parameters they read and in the malformation report. *)
Theorem parseSyntax_old_new : forall syntax vs,
  Parser.parseSyntax syntax = Some vs ->
  map variant (OldParser.parseSyntax syntax) = map Parser.variant vs /\
  map returnType (OldParser.parseSyntax syntax) = map Parser.returnType vs.
Proof.
  intros syntax vs. unfold OldParser.parseSyntax, Parser.parseSyntax, Parser.parseSyntax_on.
  destruct (negb _); [intros F; injection F as <-; split; reflexivity|].
  apply parse_variants_old_new.
Qed.

Definition old_new_syntax : string := "f(a : Text) -> r : Text<br/>g(b : Text)".

Definition old_new_result : list Parser.ParsedVariant :=
  Eval vm_compute in
    match Parser.parseSyntax old_new_syntax with Some l => l | None => [] end.

(** Witness of [parseSyntax_old_new] on two variants, one with a return
    type. *)
Lemma parseSyntax_old_new_witness :
  Parser.parseSyntax old_new_syntax = Some old_new_result /\
  (map variant (OldParser.parseSyntax old_new_syntax) = map Parser.variant old_new_result /\
   map returnType (OldParser.parseSyntax old_new_syntax) =
     map Parser.returnType old_new_result).
Proof.
  assert (E : Parser.parseSyntax old_new_syntax = Some old_new_result)
    by (vm_compute; reflexivity).
  exact (conj E (parseSyntax_old_new _ _ E)).
Defined.

End OldParserSpec.

(* ------------------------------------------------------------------ *)
(** ** The return type check never throws and reports at most one mismatch *)

Module ReturnCheckSpec.
Import Types Parser SyntaxChecker.
Local Open Scope list_scope.

Lemma match_has_type (rt : ParsedReturnType) (p : DocumentationParameter) :
  return_param_match rt p = true -> exists a, nth_error p 1 = Some a.
Proof.
  unfold return_param_match.
  destruct p as [|p0 [|p1 [|p2 r]]]; cbn [nth_error].
  - discriminate.
  - destruct (negb (ParameterChecker.is_nonempty p0)); cbn; discriminate.
  - destruct (negb (ParameterChecker.is_nonempty p0)); cbn; discriminate.
  - intros _. exists p1. reflexivity.
Qed.

Lemma find_some_true {A} (f : A -> bool) (l : list A) (x : A) :
  find f l = Some x -> f x = true.
Proof. intros H. apply (find_some f l H). Qed.

Lemma return_mismatches_spec (v : ParsedVariant)
  (params : list DocumentationParameter) :
  exists l, checkReturnTypeMismatches v params = Some l /\ List.length l <= 1 /\
  forall m, In m l ->
    exists rt, returnType v = Some rt /\ rtype rt = Some (syntaxType m) /\
      ParameterChecker.is_nonempty (syntaxType m) = true /\
      mm_name m = result_name rt /\
      ((find (return_param_match rt) params = None /\ paramsType m = "missing") \/
       (exists p, find (return_param_match rt) params = Some p /\
          nth_error p 1 = Some (paramsType m) /\
          Checker.isTypeValid_single (syntaxType m) (paramsType m) = false)).
Proof.
  unfold checkReturnTypeMismatches.
  destruct (returnType v) as [rt|] eqn:RV.
  2:{ exists []. repeat split; cbn; [lia | intros m []]. }
  destruct (find (return_param_match rt) params) as [p|] eqn:F.
  - destruct (rtype rt) as [t|] eqn:RT.
    2:{ exists []. repeat split; cbn; [lia | intros m []]. }
    destruct (ParameterChecker.is_nonempty t) eqn:NE.
    2:{ exists []. repeat split; cbn; [lia | intros m []]. }
    destruct (match_has_type rt p (find_some_true _ _ _ F)) as [a Ha].
    cbv zeta. rewrite Ha. cbn [andb app].
    destruct (Checker.isTypeValid_single t a) eqn:TV.
    + exists []. repeat split; cbn; [lia | intros m []].
    + eexists. split; [reflexivity|]. split; [cbn; lia|].
      intros m [<-|[]]. exists rt. cbn. repeat split; auto.
      right. exists p. auto.
  - destruct (rtype rt) as [t|] eqn:RT.
    2:{ exists []. repeat split; cbn; [lia | intros m []]. }
    destruct (ParameterChecker.is_nonempty t) eqn:NE; cbn.
    2:{ exists []. repeat split; cbn; [lia | intros m []]. }
    eexists. split; [reflexivity|]. split; [cbn; lia|].
    intros m [<-|[]]. exists rt. cbn. repeat split; auto.
Qed.

(** The return type check of [SyntaxChecker] always returns (the type entry
    [p[1]] is present whenever the parameter found has a direction [p[2]]),
    reports at most one mismatch, and reports one only for a variant whose
    return type has a non-empty type: named by the return name or
    "Function result", with [paramsType] "missing" when no parameter matches
    and otherwise the type of the first matching parameter, which
    [isTypeValid] rejects. *)
Theorem checkReturnTypeMismatches_result (v : ParsedVariant)
  (params : list DocumentationParameter) :
  exists l, checkReturnTypeMismatches v params = Some l /\ List.length l <= 1 /\
  forall m, In m l ->
    exists rt, returnType v = Some rt /\ rtype rt = Some (syntaxType m) /\
      ParameterChecker.is_nonempty (syntaxType m) = true /\
      mm_name m = result_name rt /\
      ((find (return_param_match rt) params = None /\ paramsType m = "missing") \/
       (exists p, find (return_param_match rt) params = Some p /\
          nth_error p 1 = Some (paramsType m) /\
          Checker.isTypeValid_single (syntaxType m) (paramsType m) = false)).
Proof. exact (return_mismatches_spec v params). Qed.


Lemma direction_has_type (p : DocumentationParameter) (d : string) :
  nth_error p 2 = Some d -> exists a, nth_error p 1 = Some a.
Proof.
  destruct p as [|p0 [|p1 [|p2 r]]]; cbn; try discriminate. intros _. eauto.
Qed.

Lemma input_direction_some (d : option string) :
  is_input_direction d = true -> exists x, d = Some x.
Proof. destruct d; [eauto | discriminate]. Qed.

Lemma type_match_has_type (pp : ParsedParameter) (p : DocumentationParameter) :
  type_param_match pp p = true -> exists a, nth_error p 1 = Some a.
Proof.
  unfold type_param_match. destruct (nth_error p 0); [|discriminate].
  intros H. apply andb_true_iff in H as [_ H].
  destruct (input_direction_some _ H) as [d Hd]. exact (direction_has_type p d Hd).
Qed.

(** What a type mismatch reported for the parsed parameter [pp] says. *)
Definition type_mismatch_ok (params : list DocumentationParameter)
  (pp : ParsedParameter) (m : TypeMismatch) : Prop :=
  mm_name m = name pp /\ name pp <> "*" /\ spread pp = false /\
  syntaxType m = param_type pp /\ param_type pp <> "unknown" /\
  exists p, find (type_param_match pp) params = Some p /\
    nth_error p 1 = Some (paramsType m) /\
    Checker.isTypeValid_single (syntaxType m) (paramsType m) = false.

(** The mismatches [ks] pushed, parameter by parameter: at most one each. *)
Definition per_parameter (params : list DocumentationParameter)
  (ps : list ParsedParameter) (ks : list (list TypeMismatch)) : Prop :=
  Forall2 (fun pp k => List.length k <= 1 /\ forall m, In m k -> type_mismatch_ok params pp m)
          ps ks.

Lemma type_mismatches_fold (params : list DocumentationParameter) :
  forall ps a, exists ks,
    fold_left (checkTypeMismatches_step params) ps (Some a) = Some (a ++ concat ks) /\
    per_parameter params ps ks.
Proof.
  induction ps as [|pp ps IH]; intros a.
  - exists []. rewrite app_nil_r. split; [reflexivity | constructor].
  - cbn [fold_left].
    assert (Step : exists k, checkTypeMismatches_step params (Some a) pp = Some (a ++ k) /\
                     List.length k <= 1 /\ forall m, In m k -> type_mismatch_ok params pp m).
    { unfold checkTypeMismatches_step.
      destruct (String.eqb (name pp) "*") eqn:Star; cbn [negb andb].
      { exists []. rewrite app_nil_r. split; [reflexivity | split; [cbn; lia | intros m []]]. }
      destruct (spread pp) eqn:Sp.
      { exists []. rewrite app_nil_r. split; [reflexivity | split; [cbn; lia | intros m []]]. }
      destruct (find (type_param_match pp) params) as [p|] eqn:F.
      2:{ exists []. rewrite app_nil_r. split; [reflexivity | split; [cbn; lia | intros m []]]. }
      destruct (String.eqb (param_type pp) "unknown") eqn:U; cbn [negb].
      { exists []. rewrite app_nil_r. split; [reflexivity | split; [cbn; lia | intros m []]]. }
      destruct (type_match_has_type pp p (find_some_true _ _ _ F)) as [t Ht]. rewrite Ht.
      destruct (Checker.isTypeValid_single (param_type pp) t) eqn:TV.
      { exists []. rewrite app_nil_r. split; [reflexivity | split; [cbn; lia | intros m []]]. }
      eexists. split; [reflexivity|]. split; [cbn; lia|].
      intros m [<-|[]]. cbn.
      apply String.eqb_neq in Star. apply String.eqb_neq in U.
      repeat split; auto. exists p. auto. }
    destruct Step as [k [E [Lk Gk]]]. rewrite E.
    destruct (IH (a ++ k)) as [ks [E2 P2]]. rewrite E2.
    exists (k :: ks). cbn [concat]. rewrite app_assoc. split; [reflexivity|].
    constructor; [split; assumption | exact P2].
Qed.

(** X17. [checkTypeMismatches] of [SyntaxChecker] always returns (a
    documentation parameter that matches has its type entry [p[1]]), and
    its list is made of one piece per parsed parameter, in order, each
    holding at most one mismatch. A mismatch in the piece of a parsed
    parameter carries its name and type; that parameter is not "*", not a
    spread and not of type "unknown", and the mismatch is against the type
    of the first documentation parameter of the same lower-cased name with
    an input direction, which [isTypeValid] rejects. *)
Theorem checkTypeMismatches_result (v : ParsedVariant)
  (params : list DocumentationParameter) :
  exists ks, checkTypeMismatches v params = Some (concat ks) /\
    List.length ks = List.length (parameters v) /\
    Forall2 (fun pp k => List.length k <= 1 /\
                         forall m, In m k -> type_mismatch_ok params pp m)
            (parameters v) ks.
Proof.
  unfold checkTypeMismatches.
  destruct (type_mismatches_fold params (parameters v) []) as [ks [E R]].
  exists ks. rewrite E. split; [reflexivity|].
  split; [symmetry; exact (Forall2_length R) | exact R].
Qed.

Lemma map_throw_total {A B : Type} (f : A -> option B) (l : list A) :
  (forall a, In a l -> f a <> None) ->
  exists l', map_throw f l = Some l' /\
    forall b, In b l' <-> exists a, In a l /\ f a = Some b.
Proof.
  induction l as [|a r IH]; intros H.
  - exists []. split; [reflexivity|]. intros b. cbn. split; [intros []|intros [a [[] _]]].
  - cbn [map_throw]. destruct (f a) as [b|] eqn:Fa.
    2:{ exfalso. apply (H a); [left; reflexivity | exact Fa]. }
    destruct IH as [l' [E I]]; [intros x Hx; apply H; right; exact Hx|].
    rewrite E. exists (b :: l'). split; [reflexivity|]. intros c. cbn. rewrite I. split.
    + intros [<-|[x [Hx Fx]]]; [exists a; auto | exists x; auto].
    + intros [x [[<-|Hx] Fx]]; [left; congruence | right; exists x; auto].
Qed.

(** The documentation parameters whose lower-cased name [extractActualParamNames]
    returns. *)
Definition actual_name_of (params : list DocumentationParameter) (x : string) : Prop :=
  exists p n, In p params /\ nth_error p 0 = Some n /\
    (is_input_direction (nth_error p 2) || is_return_direction (nth_error p 2)) = true /\
    n <> "Result" /\ n <> "Function result" /\ toLowerCase n = x.

Lemma extract_names (params : list DocumentationParameter) :
  exists names, extractActualParamNames params = Some names /\
    forall x, In x names <-> actual_name_of params x.
Proof.
  assert (G : exists names,
      map_throw (fun param => option_map toLowerCase (nth_error param 0))
        (filter (fun param =>
                   let direction := nth_error param 2 in
                   let name := nth_error param 0 in
                   (is_input_direction direction || is_return_direction direction) &&
                   negb (entry_is name "Result") &&
                   negb (entry_is name "Function result")) params) = Some names /\
      forall x, In x names <-> actual_name_of params x).
  { match goal with |- exists names, map_throw ?f ?l = _ /\ _ =>
      assert (P : forall a, In a l -> f a <> None);
      [|destruct (map_throw_total f l P) as [l' [E I]]] end.
    { intros p Hp. apply filter_In in Hp as [_ D]. cbn in D.
      destruct (nth_error p 0) eqn:N; [discriminate|].
      destruct p as [|p0 r]; [|discriminate].
      cbn in D. discriminate. }
    exists l'. split; [exact E|]. intros x. rewrite I. unfold actual_name_of. split.
    - intros [p [Hp Fp]]. apply filter_In in Hp as [Hp D].
      destruct (nth_error p 0) as [n|] eqn:N; [|discriminate].
      injection Fp as <-. cbn in D.
      apply andb_true_iff in D as [D D2]. apply andb_true_iff in D as [D D1].
      exists p, n. apply negb_true_iff, String.eqb_neq in D1, D2. auto 7.
    - intros [p [n [Hp [N [D [R1 [R2 X]]]]]]]. exists p. rewrite N. split; [|cbn; congruence].
      apply filter_In. split; [exact Hp|]. cbv beta zeta. rewrite N, D. cbn [andb entry_is].
      apply String.eqb_neq in R1, R2. rewrite R1, R2. reflexivity. }
  unfold extractActualParamNames. destruct params as [|q qs].
  - exists []. split; [reflexivity|]. intros x. split; [intros []|].
    intros [p [n [[] _]]].
  - exact G.
Qed.

(** Called as [checkCommand] does, with the names [extractActualParamNames]
    returns, [validateVariantParameters] always returns, and a name is an
    extra parameter exactly when it is the lower-cased name of a parsed
    non-spread parameter, is not "*", and no documentation parameter with a
    direction ("&#8594;", "->", "&#8596;", "<->", "&#8592;" or "<-") other
    than "Result" and "Function result" has it as lower-cased name. *)
Theorem validateVariantParameters_extra (v : ParsedVariant)
  (params : list DocumentationParameter) :
  exists names r, extractActualParamNames params = Some names /\
    validateVariantParameters v params names = Some r /\
    checkTypeMismatches v params = Some (typeMismatches r) /\
    checkReturnTypeMismatches v params = Some (returnTypeMismatches r) /\
    forall x, In x (extraParams r) <->
      ((exists pp, In pp (parameters v) /\ spread pp = false /\ toLowerCase (name pp) = x) /\
       x <> "*" /\ ~ actual_name_of params x).
Proof.
  destruct (extract_names params) as [names [E I]].
  destruct (type_mismatches_fold params (parameters v) []) as [tl [T _]].
  destruct (return_mismatches_spec v params) as [rl [Rr _]].
  exists names. eexists. split; [exact E|].
  unfold validateVariantParameters. unfold checkTypeMismatches at 1. rewrite T, Rr.
  split; [reflexivity|]. split; [unfold checkTypeMismatches; rewrite T; reflexivity|].
  split; [first [reflexivity | rewrite Rr; reflexivity]|].
  intros x. cbn [extraParams]. rewrite filter_In, in_map_iff. split.
  - intros [[pp [X Hpp]] C]. apply filter_In in Hpp as [Hpp S].
    apply andb_true_iff in C as [C1 C2]. apply negb_true_iff in C1, C2.
    apply String.eqb_neq in C2. apply negb_true_iff in S.
    split; [exists pp; auto|]. split; [exact C2|].
    intros A. apply I in A. assert (B : existsb (String.eqb x) names = true).
    { apply existsb_exists. exists x. split; [exact A | apply String.eqb_refl]. }
    congruence.
  - intros [[pp [Hpp [S X]]] [C2 C1]]. split.
    + exists pp. split; [exact X|]. apply filter_In. rewrite S. auto.
    + apply andb_true_iff. split.
      * apply negb_true_iff. destruct (existsb (String.eqb x) names) eqn:B; [|reflexivity].
        exfalso. apply existsb_exists in B as [y [Y Ey]]. apply String.eqb_eq in Ey. subst y.
        apply C1, I, Y.
      * apply negb_true_iff, String.eqb_neq, C2.
Qed.

End ReturnCheckSpec.
